(** * fyproto: Feiyu gimbal wire protocol, encoding and stream decoding

    A shallow embedding of [fyproto.py] (class [Packet] and class
    [PacketReceiver]) together with the two library routines it calls,
    [struct.pack]/[struct.unpack] for the format codes that occur in the file
    and [binascii.crc_hqx].

    Conventions.
    - A Python [bytes] object is a [list byte].
    - A Python [int] is a [Z].
    - A raised exception is a value of [exn]; code that may raise returns a
      [result].
    - [PacketReceiver.parse] is a generator that also prints diagnostics.  It
      is modelled run to exhaustion: what it produces is the list of its
      yields and prints, in order, and the buffer it leaves behind. *)

From Stdlib Require Import ZArith List Bool Lia.
From Stdlib Require Import Strings.Byte.
From Stdlib Require Import Strings.Ascii.
Import ListNotations.
Local Open Scope Z_scope.

(** ** Bytes *)

Definition b2z (b : byte) : Z := Z.of_N (Byte.to_N b).

Definition z2b (z : Z) : byte :=
  match Byte.of_N (Z.to_N (z mod 256)) with
  | Some b => b
  | None => x00
  end.

(** Python slices with integer bounds [0 <= a <= b], the only ones that occur
    in [fyproto.py]: [l[a:]] is [drop a l] and [l[a:b]] is [slice a b l].
    Both ends are clamped to the length of [l], as [firstn] and [skipn]
    are. *)
Definition drop {A} (a : Z) (l : list A) : list A :=
  skipn (Z.to_nat a) l.

Definition slice {A} (a b : Z) (l : list A) : list A :=
  firstn (Z.to_nat (b - a)) (drop a l).

Definition len {A} (l : list A) : Z := Z.of_nat (length l).

(** ** Exceptions *)

Inductive exn : Type :=
| ValueError
| KeyError
| StructError.

Inductive result (A : Type) : Type :=
| Ok (a : A)
| Err (e : exn).
Arguments Ok {A} a.
Arguments Err {A} e.

Definition bind {A B} (r : result A) (k : A -> result B) : result B :=
  match r with
  | Ok a => k a
  | Err e => Err e
  end.

Notation "'let/r' x ':=' r 'in' k" := (bind r (fun x => k))
  (at level 10, x pattern, r at level 100, k at level 200).

(** ** The [struct] module, for the format codes used by [fyproto.py] *)

Module struct.

(** The two integer codes stored under ['len_struct']. *)
Inductive code := B | H.

(** [struct.calcsize] of one code in standard ([<]) mode. *)
Definition size (c : code) : Z :=
  match c with B => 1 | H => 2 end.

(** [struct.pack('<' + c, n)]: little-endian, range-checked. *)
Definition pack_int (c : code) (n : Z) : result (list byte) :=
  match c with
  | B => if (0 <=? n) && (n <=? 255) then Ok [z2b n] else Err StructError
  | H => if (0 <=? n) && (n <=? 65535)
         then Ok [z2b (n mod 256); z2b (n / 256)] else Err StructError
  end.

(** [struct.pack('BB', a, b)]. *)
Definition pack_BB (a b : Z) : result (list byte) :=
  let/r x := pack_int B a in
  let/r y := pack_int B b in
  Ok (x ++ y).

(** [struct.unpack('<H', bs)[0]]; the buffer must have exactly two bytes. *)
Definition unpack_H (bs : list byte) : result Z :=
  match bs with
  | [lo; hi] => Ok (b2z lo + 256 * b2z hi)
  | _ => Err StructError
  end.

(** [struct.calcsize('<BB' + c)]. *)
Definition calcsize_header (c : code) : Z := 2 + size c.

(** [struct.unpack('<BB' + c, bs)]. *)
Definition unpack_header (c : code) (bs : list byte) : result (Z * Z * Z) :=
  match c, bs with
  | B, [t; k; l] => Ok (b2z t, b2z k, b2z l)
  | H, [t; k; l0; l1] => Ok (b2z t, b2z k, b2z l0 + 256 * b2z l1)
  | _, _ => Err StructError
  end.

End struct.

(** ** [binascii.crc_hqx]

    The CRC-CCITT of the Python library: generator x^16 + x^12 + x^5 + 1
    (0x1021), most significant bit first, no reflection, no final
    exclusive-or; [value] is the starting register, cut to 16 bits. *)

Module binascii.

Definition crc_hqx_bit (crc : Z) : Z :=
  if Z.testbit crc 15
  then Z.land (Z.lxor (Z.shiftl crc 1) 0x1021) 0xffff
  else Z.land (Z.shiftl crc 1) 0xffff.

Definition crc_hqx_byte (crc : Z) (b : byte) : Z :=
  Nat.iter 8 crc_hqx_bit (Z.lxor crc (Z.shiftl (b2z b) 8)).

Definition crc_hqx (data : list byte) (value : Z) : Z :=
  fold_left crc_hqx_byte data (Z.land value 0xffff).

End binascii.

(** ** The constants and [class Packet] *)

Definition LONG_FORM : Z := 0xaa55.
Definition SHORT_FORM : Z := 0x5aa5.

Record format : Type := {
  len_struct : struct.code;
  initial_crc_value : Z
}.

Module Packet.

Record t : Type := {
  command : Z;
  framing : Z;
  target : Z;
  data : list byte
}.

(** The class attribute [formats], a dict with two keys. *)
Definition formats (key : Z) : option format :=
  if key =? LONG_FORM
  then Some {| len_struct := struct.H; initial_crc_value := 0xffff |}
  else if key =? SHORT_FORM
  then Some {| len_struct := struct.B; initial_crc_value := 0x0000 |}
  else None.

(** [formats[key]], which raises [KeyError] on a missing key. *)
Definition formats_get (key : Z) : result format :=
  match formats key with
  | Some f => Ok f
  | None => Err KeyError
  end.

(** [Packet.__init__(self, command, framing, target, data)]. *)
Definition init (command framing target : Z) (data : list byte)
  : result t :=
  match formats framing with
  | None => Err ValueError
  | Some _ =>
      Ok {| command := command; framing := framing;
            target := target; data := data |}
  end.

(** [Packet.crc(cls, framing, data)]. *)
Definition crc (framing : Z) (data : list byte) : result Z :=
  let/r f := formats_get framing in
  Ok (binascii.crc_hqx data (initial_crc_value f)).

(** [Packet.pack(self)]. *)
Definition pack (self : t) : result (list byte) :=
  let/r p0 := struct.pack_BB (target self) (command self) in
  let/r f := formats_get (framing self) in
  let/r p1 := struct.pack_int (len_struct f) (len (data self)) in
  let parts := p0 ++ p1 ++ data self in
  let/r c := crc (framing self) parts in
  let/r p3 := struct.pack_int struct.H c in
  let/r m := struct.pack_int struct.H (framing self) in
  Ok (m ++ parts ++ p3).

End Packet.

(** ** [class PacketReceiver] *)

Module PacketReceiver.

(** What a run of [parse] lets the outside see, in order: a yielded packet,
    or the line printed on a CRC mismatch with its two values. *)
Inductive event : Type :=
| Yield (p : Packet.t)
| PrintCrcMismatch (rx_crc calc_crc : Z).

(** How one pass through the [while] statement ends: the loop is left (the
    condition is false, or a [break]); control returns to the loop test
    with a new [self.buffer], after a [continue] or a [yield]; or an
    exception leaves the generator. *)
Inductive step : Type :=
| Break
| Continue (o : option event) (buffer : list byte)
| Raise (e : exn) (buffer : list byte).

(** [PacketReceiver.__init__]: the buffer of a new receiver. *)
Definition init : list byte := [].

(** The loop test and the loop body of [parse], on [self.buffer]. *)
Definition body (buffer : list byte) : step :=
  if len buffer <? 2 then Break else
  match struct.unpack_H (slice 0 2 buffer) with
  | Err e => Raise e buffer
  | Ok framing =>
  match Packet.formats framing with
  | None => Continue None (drop 1 buffer)
  | Some f =>
  let header_len := struct.calcsize_header (len_struct f) in
  let header := slice 2 (2 + header_len) buffer in
  if len buffer <? header_len + 4 then Break else
  match struct.unpack_header (len_struct f) header with
  | Err e => Raise e buffer
  | Ok (target, command, data_len) =>
  if len buffer <? header_len + data_len + 4 then Break else
  let data := slice (2 + header_len) (2 + header_len + data_len) buffer in
  match struct.unpack_H
          (slice (2 + header_len + data_len) (4 + header_len + data_len)
             buffer) with
  | Err e => Raise e buffer
  | Ok rx_crc =>
  let buffer' := drop (4 + header_len + data_len) buffer in
  match Packet.crc framing (header ++ data) with
  | Err e => Raise e buffer'
  | Ok calc_crc =>
  if negb (rx_crc =? calc_crc)
  then Continue (Some (PrintCrcMismatch rx_crc calc_crc)) buffer'
  else
    match Packet.init command framing target data with
    | Err e => Raise e buffer'
    | Ok p => Continue (Some (Yield p)) buffer'
    end
  end end end end end.

(** The outcome of a run: the events in order, [self.buffer] afterwards,
    and the exception that ended the run, if one did. *)
Record run : Type := {
  out : list event;
  buffer : list byte;
  raised : option exn
}.

Definition emit (o : option event) (r : run) : run :=
  match o with
  | Some e => {| out := e :: out r; buffer := buffer r; raised := raised r |}
  | None => r
  end.

(** The [while] loop.  [fuel] bounds the number of passes; [None] means the
    bound was reached before the loop ended. *)
Fixpoint loop (fuel : nat) (buffer : list byte) : option run :=
  match fuel with
  | O => None
  | S fuel' =>
      match body buffer with
      | Break => Some {| out := []; buffer := buffer; raised := None |}
      | Raise e b => Some {| out := []; buffer := b; raised := Some e |}
      | Continue o b => option_map (emit o) (loop fuel' b)
      end
  end.

(** [PacketReceiver.parse(self, data)], run to exhaustion, on a receiver
    whose buffer is [self_buffer]. *)
Definition parse (self_buffer data : list byte) : option run :=
  let buffer := self_buffer ++ data in
  loop (S (length buffer)) buffer.

(** A caller that feeds chunks one after the other to one receiver,
    exhausting each generator before the next call. *)
Fixpoint feed (self_buffer : list byte) (chunks : list (list byte))
  : option run :=
  match chunks with
  | [] => Some {| out := []; buffer := self_buffer; raised := None |}
  | c :: cs =>
      match parse self_buffer c with
      | None => None
      | Some r =>
          match raised r with
          | Some _ => Some r
          | None =>
              option_map
                (fun r' => {| out := out r ++ out r';
                              buffer := buffer r'; raised := raised r' |})
                (feed (buffer r) cs)
          end
      end
  end.

End PacketReceiver.

(** ** [Packet.__repr__]

    A Python [str] is a [list ascii].  The [%] operator is modelled for the
    two conversions of the format string, [%04X] and [%02x], on integers:
    an optional minus sign, then zeros up to the width, then the digits. *)

Module pyformat.

Definition digits (upper : bool) : list ascii :=
  if upper
  then ["0"; "1"; "2"; "3"; "4"; "5"; "6"; "7"; "8"; "9";
        "A"; "B"; "C"; "D"; "E"; "F"]%char
  else ["0"; "1"; "2"; "3"; "4"; "5"; "6"; "7"; "8"; "9";
        "a"; "b"; "c"; "d"; "e"; "f"]%char.

Definition hexdigit (upper : bool) (d : Z) : ascii :=
  nth (Z.to_nat d) (digits upper) "0"%char.

(** The hexadecimal digits of [n >= 0], most significant first; [fuel]
    bounds their number. *)
Fixpoint hex_digits (fuel : nat) (upper : bool) (n : Z) : list ascii :=
  match fuel with
  | O => []
  | S fuel' =>
      if n <? 16 then [hexdigit upper n]
      else hex_digits fuel' upper (n / 16) ++ [hexdigit upper (n mod 16)]
  end.

Definition hex (upper : bool) (n : Z) : list ascii :=
  hex_digits (S (Z.to_nat (Z.log2 n))) upper n.

(** ['%0<width>x' % n], or with [X] when [upper]. *)
Definition format_hex (width : nat) (upper : bool) (n : Z) : list ascii :=
  let sign := if n <? 0 then ["-"%char] else [] in
  let ds := hex upper (Z.abs n) in
  sign ++ repeat "0"%char (width - length sign - length ds) ++ ds.

(** [binascii.b2a_hex(data).decode()]: two lower-case digits per byte. *)
Definition b2a_hex (data : list byte) : list ascii :=
  flat_map (fun b => [hexdigit false (b2z b / 16);
                      hexdigit false (b2z b mod 16)]) data.

End pyformat.

(** [Packet.__repr__(self)]. *)
Definition Packet__repr__ (self : Packet.t) : list ascii :=
  ["<"; "P"; "k"; "t"; "-"]%char ++
  pyformat.format_hex 4 true (Packet.framing self) ++
  [" "; "t"; "="]%char ++
  pyformat.format_hex 2 false (Packet.target self) ++
  [" "; "c"; "m"; "d"; "="]%char ++
  pyformat.format_hex 2 false (Packet.command self) ++
  [" "; "["]%char ++
  pyformat.b2a_hex (Packet.data self) ++
  ["]"; ">"]%char.

(** ** Definitions used to state the properties *)

(** CRC-16/ARC as the specification describes the checksum: reflected
    polynomial 0xA001, least significant bit first, started from a seed.
    It is written from the specification's words, to be compared with
    [binascii.crc_hqx], which is what [Packet.crc] calls. *)
Module SpecCRC.

Definition crc16_arc_bit (crc : Z) : Z :=
  if Z.testbit crc 0
  then Z.lxor (Z.shiftr crc 1) 0xA001
  else Z.shiftr crc 1.

Definition crc16_arc_byte (crc : Z) (b : byte) : Z :=
  Nat.iter 8 crc16_arc_bit (Z.lxor crc (b2z b)).

Definition crc16_arc (data : list byte) (seed : Z) : Z :=
  fold_left crc16_arc_byte data (Z.land seed 0xffff).

End SpecCRC.

(** Flipping bit [k] of a byte, and of the byte at index [i] of a byte
    string. *)
Definition flip_bit_byte (k : Z) (b : byte) : byte :=
  z2b (Z.lxor (b2z b) (Z.shiftl 1 k)).

Definition flip_bit (i : nat) (k : Z) (l : list byte) : list byte :=
  firstn i l ++
  match skipn i l with
  | [] => []
  | b :: t => flip_bit_byte k b :: t
  end.

(** The little-endian bytes of a 16-bit value, written out. *)
Definition le16 (n : Z) : list byte := [z2b (n mod 256); z2b (n / 256)].

(** The value of a marker found at byte offset [i] of a stream, if two bytes
    are there. *)
Definition marker_at (i : nat) (s : list byte) : option Z :=
  match skipn i s with
  | lo :: hi :: _ => Some (b2z lo + 256 * b2z hi)
  | _ => None
  end.

Definition recognized (i : nat) (s : list byte) : bool :=
  match marker_at i s with
  | Some m => match Packet.formats m with Some _ => true | None => false end
  | None => false
  end.

(** The inverse of one shift of the CRC register: the low bit of the result
    tells whether 0x1021 was added, since 0x1021 is odd. *)
Definition crc_hqx_unbit (y : Z) : Z :=
  if Z.odd y
  then Z.lor (Z.shiftr (Z.lxor y 0x1021) 1) 0x8000
  else Z.shiftr y 1.

(** [P z && P (z+1) && ... && P (z+n-1)], to check a property of every value
    of a bounded machine integer. *)
Fixpoint all_below (P : Z -> bool) (n : nat) (z : Z) : bool :=
  match n with
  | O => true
  | S n' => P z && all_below P n' (z + 1)
  end.

(** The passes of the loop of [parse], told apart by what is buffered: the
    relation [pass buf s] lists, without slices, the ways in which one pass
    over [buf] can end in [s].  [body_pass] below shows that the loop body
    always does one of them. *)
Inductive pass : list byte -> PacketReceiver.step -> Prop :=
| pass_short buf :
    len buf < 2 ->
    pass buf PacketReceiver.Break
| pass_skip lo hi rest :
    Packet.formats (b2z lo + 256 * b2z hi) = None ->
    pass (lo :: hi :: rest) (PacketReceiver.Continue None (hi :: rest))
| pass_wait_header m tail framing f :
    struct.unpack_H m = Ok framing ->
    Packet.formats framing = Some f ->
    len tail < struct.calcsize_header (len_struct f) + 2 ->
    pass (m ++ tail) PacketReceiver.Break
| pass_wait_data m hdr tail framing f t k n :
    struct.unpack_H m = Ok framing ->
    Packet.formats framing = Some f ->
    struct.unpack_header (len_struct f) hdr = Ok (t, k, n) ->
    len tail < n + 2 ->
    pass (m ++ hdr ++ tail) PacketReceiver.Break
| pass_mismatch m hdr d c rest framing f t k rx :
    struct.unpack_H m = Ok framing ->
    Packet.formats framing = Some f ->
    struct.unpack_header (len_struct f) hdr = Ok (t, k, len d) ->
    struct.unpack_H c = Ok rx ->
    rx <> binascii.crc_hqx (hdr ++ d) (initial_crc_value f) ->
    pass (m ++ hdr ++ d ++ c ++ rest)
      (PacketReceiver.Continue
         (Some (PacketReceiver.PrintCrcMismatch rx
                  (binascii.crc_hqx (hdr ++ d) (initial_crc_value f))))
         rest)
| pass_yield m hdr d c rest framing f t k rx :
    struct.unpack_H m = Ok framing ->
    Packet.formats framing = Some f ->
    struct.unpack_header (len_struct f) hdr = Ok (t, k, len d) ->
    struct.unpack_H c = Ok rx ->
    rx = binascii.crc_hqx (hdr ++ d) (initial_crc_value f) ->
    pass (m ++ hdr ++ d ++ c ++ rest)
      (PacketReceiver.Continue
         (Some (PacketReceiver.Yield
                  {| Packet.command := k; Packet.framing := framing;
                     Packet.target := t; Packet.data := d |}))
         rest).

(** Two runs one after the other, seen as one. *)
Definition then_run (r r' : PacketReceiver.run) : PacketReceiver.run :=
  {| PacketReceiver.out := PacketReceiver.out r ++ PacketReceiver.out r';
     PacketReceiver.buffer := PacketReceiver.buffer r';
     PacketReceiver.raised := PacketReceiver.raised r' |}.

(** An 8-bit unsigned value, the type of [target] and [command] in the data
    model. *)
Definition u8 (n : Z) : Prop := 0 <= n < 256.

(** The largest payload length that a length field holds. *)
Definition length_field_max (c : struct.code) : Z :=
  match c with struct.B => 255 | struct.H => 65535 end.

(** The bytes of a length field holding [n], written out. *)
Definition length_field (c : struct.code) (n : Z) : list byte :=
  match c with
  | struct.B => [z2b n]
  | struct.H => [z2b (n mod 256); z2b (n / 256)]
  end.

(** The part of a frame that the CRC covers. *)
Definition covered (c : struct.code) (p : Packet.t) : list byte :=
  [z2b (Packet.target p)] ++ [z2b (Packet.command p)] ++
  length_field c (len (Packet.data p)) ++ Packet.data p.

(** The packet of the concrete scenario: short form, target 0, command 1
    (joystick data), payload 05 00. *)
Definition scenario_packet : Packet.t :=
  {| Packet.command := 0x01; Packet.framing := SHORT_FORM;
     Packet.target := 0x00; Packet.data := [x05; x00] |}.

Definition short_format : format :=
  {| len_struct := struct.B; initial_crc_value := 0x0000 |}.

Definition long_format : format :=
  {| len_struct := struct.H; initial_crc_value := 0xffff |}.

(** The ASCII digits 1 to 9, the customary test message of CRC
    catalogues. *)
Definition check_message : list byte :=
  [x31; x32; x33; x34; x35; x36; x37; x38; x39].

(** The buffer starts with a recognized marker but holds fewer bytes than
    the candidate frame needs: fewer than [header_len + 4], or, once the
    header is there, fewer than [header_len + data_len + 4]. *)
Definition insufficient (buf : list byte) : Prop :=
  exists framing f,
    struct.unpack_H (slice 0 2 buf) = Ok framing /\
    Packet.formats framing = Some f /\
    let header_len := struct.calcsize_header (len_struct f) in
    (len buf < header_len + 4 \/
     exists t k data_len,
       struct.unpack_header (len_struct f) (slice 2 (2 + header_len) buf)
       = Ok (t, k, data_len) /\
       len buf < header_len + data_len + 4).

(** The byte offsets of a packed frame that hold the target (2), the command
    (3) or a payload byte (from [2 + header_len] up to the CRC); the length
    field, between them, is left out. *)
Definition target_command_or_payload (c : struct.code) (p : Packet.t)
           (i : nat) : Prop :=
  let header_len := Z.to_nat (struct.calcsize_header c) in
  i = 2%nat \/ i = 3%nat \/
  (2 + header_len <= i < 2 + header_len + length (Packet.data p))%nat.

(** The range test of [struct.pack] for the code [B], as a boolean. *)
Definition u8b (n : Z) : bool := (0 <=? n) && (n <=? 255).

(** What can be said of any event of a run: a yielded packet can be packed
    again, and a printed diagnostic carries two different 16-bit values. *)
Definition event_sound (e : PacketReceiver.event) : Prop :=
  match e with
  | PacketReceiver.Yield p => exists frame, Packet.pack p = Ok frame
  | PacketReceiver.PrintCrcMismatch rx calc =>
      rx <> calc /\ 0 <= rx < 65536 /\ 0 <= calc < 65536
  end.

(** * Properties *)

(** Brings nested concatenations to one shape. *)
Ltac norm_app := repeat (progress (cbn [app]) || rewrite <- app_assoc).

#[local] Arguments Z.mul : simpl never.
#[local] Arguments Z.add : simpl never.
#[local] Arguments Z.sub : simpl never.
#[local] Arguments Z.div : simpl never.
#[local] Arguments Z.modulo : simpl never.
#[local] Arguments Z.pow : simpl never.
#[local] Arguments Z.to_nat : simpl never.
#[local] Arguments Z.of_nat : simpl never.
#[local] Arguments Z.ltb : simpl never.
#[local] Arguments Z.leb : simpl never.
#[local] Arguments Z.eqb : simpl never.
#[local] Arguments Z.land : simpl never.
#[local] Arguments Z.lxor : simpl never.
#[local] Arguments Z.shiftl : simpl never.
#[local] Arguments Z.testbit : simpl never.

(** ** Bytes and slices *)

Lemma b2z_range (b : byte) : 0 <= b2z b < 256.
Proof.
  unfold b2z. pose proof (Byte.to_N_bounded b). lia.
Qed.

Lemma z2b_b2z (b : byte) : z2b (b2z b) = b.
Proof.
  unfold z2b. rewrite Z.mod_small by apply b2z_range.
  unfold b2z. rewrite N2Z.id, Byte.of_to_N. reflexivity.
Qed.

Lemma b2z_z2b (z : Z) : 0 <= z < 256 -> b2z (z2b z) = z.
Proof.
  intros Hz. unfold z2b. rewrite Z.mod_small by assumption.
  destruct (Byte.of_N (Z.to_N z)) as [b|] eqn:E.
  - apply Byte.to_of_N in E. unfold b2z. rewrite E. lia.
  - apply Byte.of_N_None_iff in E. lia.
Qed.

Lemma b2z_inj (a b : byte) : b2z a = b2z b -> a = b.
Proof.
  intros E. rewrite <- (z2b_b2z a), <- (z2b_b2z b), E. reflexivity.
Qed.

Lemma len_app {A} (xs ys : list A) : len (xs ++ ys) = len xs + len ys.
Proof. unfold len. rewrite length_app. lia. Qed.

Lemma len_nonneg {A} (xs : list A) : 0 <= len xs.
Proof. unfold len. lia. Qed.

Lemma drop_app {A} (a : Z) (xs ys : list A) :
  a = len xs -> drop a (xs ++ ys) = ys.
Proof.
  intros ->. unfold drop, len. rewrite Nat2Z.id.
  rewrite skipn_app, skipn_all, Nat.sub_diag. reflexivity.
Qed.

Lemma slice_app {A} (a b : Z) (xs ys zs : list A) :
  a = len xs -> b = a + len ys -> slice a b (xs ++ ys ++ zs) = ys.
Proof.
  intros Ha ->. unfold slice. rewrite drop_app by assumption.
  replace (a + len ys - a) with (len ys) by lia.
  unfold len. rewrite Nat2Z.id, firstn_app, firstn_all, Nat.sub_diag.
  simpl. apply app_nil_r.
Qed.

Lemma slice_head {A} (b : Z) (ys zs : list A) :
  b = len ys -> slice 0 b (ys ++ zs) = ys.
Proof.
  intros ->. apply (slice_app 0 (len ys) [] ys zs); reflexivity.
Qed.

(** ** [struct]: packing and unpacking are inverse, sizes are as declared *)

Lemma unpack_H_length (bs : list byte) (n : Z) :
  struct.unpack_H bs = Ok n -> len bs = 2 /\ 0 <= n < 65536.
Proof.
  destruct bs as [|lo [|hi [|x bs]]]; cbn [struct.unpack_H]; try discriminate.
  intros E. injection E as <-.
  pose proof (b2z_range lo). pose proof (b2z_range hi).
  split; [reflexivity | lia].
Qed.

Lemma unpack_H_le16 (n : Z) :
  0 <= n < 65536 -> struct.unpack_H (le16 n) = Ok n.
Proof.
  intros Hn. unfold le16, struct.unpack_H.
  rewrite !b2z_z2b.
  - f_equal. pose proof (Z.div_mod n 256 ltac:(lia)). lia.
  - split; [apply Z.div_pos; lia | apply Z.div_lt_upper_bound; lia].
  - apply Z.mod_pos_bound. lia.
Qed.

Lemma le16_unpack_H (bs : list byte) (n : Z) :
  struct.unpack_H bs = Ok n -> bs = le16 n.
Proof.
  destruct bs as [|lo [|hi [|x bs]]]; cbn [struct.unpack_H]; try discriminate.
  intros E. injection E as <-.
  pose proof (b2z_range lo). pose proof (b2z_range hi).
  unfold le16.
  replace (b2z lo + 256 * b2z hi) with (b2z lo + b2z hi * 256) by lia.
  rewrite Z.mod_add, Z.div_add by lia.
  rewrite Z.mod_small, Z.div_small by lia.
  rewrite Z.add_0_l, !z2b_b2z. reflexivity.
Qed.

Lemma pack_H_ok (n : Z) :
  0 <= n < 65536 -> struct.pack_int struct.H n = Ok (le16 n).
Proof.
  intros Hn. unfold struct.pack_int.
  replace ((0 <=? n) && (n <=? 65535)) with true; [reflexivity|].
  symmetry. apply andb_true_iff. split; apply Z.leb_le; lia.
Qed.

Lemma pack_int_spec (c : struct.code) (n : Z) (bs : list byte) :
  struct.pack_int c n = Ok bs ->
  0 <= n < 256 ^ struct.size c /\ len bs = struct.size c /\
  bs = match c with struct.B => [z2b n] | struct.H => le16 n end.
Proof.
  destruct c; simpl;
    match goal with |- context [if ?b then _ else _] => destruct b eqn:E end;
    try discriminate; intros X; injection X as <-;
    apply andb_true_iff in E; destruct E as [E1 E2];
    apply Z.leb_le in E1; apply Z.leb_le in E2;
    (split; [change (256 ^ 1) with 256; change (256 ^ 2) with 65536; lia|]);
    split; reflexivity.
Qed.

Lemma pack_int_fails (c : struct.code) (n : Z) :
  256 ^ struct.size c <= n -> struct.pack_int c n = Err StructError.
Proof.
  intros Hn. destruct c; simpl in *.
  - change (256 ^ 1) with 256 in Hn.
    replace (n <=? 255) with false by (symmetry; apply Z.leb_gt; lia).
    rewrite andb_false_r. reflexivity.
  - change (256 ^ 2) with 65536 in Hn.
    replace (n <=? 65535) with false by (symmetry; apply Z.leb_gt; lia).
    rewrite andb_false_r. reflexivity.
Qed.

Lemma pack_int_ok (c : struct.code) (n : Z) :
  0 <= n < 256 ^ struct.size c ->
  struct.pack_int c n =
  Ok match c with struct.B => [z2b n] | struct.H => le16 n end.
Proof.
  intros Hn. destruct c; simpl in *.
  - change (256 ^ 1) with 256 in Hn.
    replace ((0 <=? n) && (n <=? 255)) with true; [reflexivity|].
    symmetry. apply andb_true_iff. split; apply Z.leb_le; lia.
  - change (256 ^ 2) with 65536 in Hn. apply pack_H_ok. lia.
Qed.

Lemma pack_BB_spec (a b : Z) (bs : list byte) :
  struct.pack_BB a b = Ok bs ->
  0 <= a < 256 /\ 0 <= b < 256 /\ bs = [z2b a; z2b b].
Proof.
  unfold struct.pack_BB, bind.
  destruct (struct.pack_int struct.B a) as [x|] eqn:Ea; try discriminate.
  destruct (struct.pack_int struct.B b) as [y|] eqn:Eb; try discriminate.
  apply pack_int_spec in Ea. apply pack_int_spec in Eb.
  destruct Ea as (Ha & _ & ->). destruct Eb as (Hb & _ & ->).
  change (256 ^ struct.size struct.B) with 256 in *.
  intros X. injection X as <-. auto.
Qed.

Lemma pack_BB_ok (a b : Z) :
  0 <= a < 256 -> 0 <= b < 256 ->
  struct.pack_BB a b = Ok [z2b a; z2b b].
Proof.
  intros Ha Hb. unfold struct.pack_BB, bind.
  rewrite (pack_int_ok struct.B a), (pack_int_ok struct.B b); auto.
Qed.

Lemma unpack_header_length (c : struct.code) (bs : list byte) (t k n : Z) :
  struct.unpack_header c bs = Ok (t, k, n) ->
  len bs = struct.calcsize_header c /\
  0 <= t < 256 /\ 0 <= k < 256 /\ 0 <= n < 256 ^ struct.size c.
Proof.
  destruct c; cbn [struct.unpack_header struct.calcsize_header struct.size].
  - destruct bs as [|b0 [|b1 [|b2 [|b3 bs]]]]; try discriminate.
    intros X. injection X as <- <- <-.
    pose proof (b2z_range b0). pose proof (b2z_range b1).
    pose proof (b2z_range b2). change (256 ^ 1) with 256.
    repeat split; lia.
  - destruct bs as [|b0 [|b1 [|b2 [|b3 [|b4 bs]]]]]; try discriminate.
    intros X. injection X as <- <- <-.
    pose proof (b2z_range b0). pose proof (b2z_range b1).
    pose proof (b2z_range b2). pose proof (b2z_range b3).
    change (256 ^ 2) with 65536.
    repeat split; lia.
Qed.

Lemma unpack_header_total (c : struct.code) (bs : list byte) :
  len bs = struct.calcsize_header c ->
  exists t k n, struct.unpack_header c bs = Ok (t, k, n).
Proof.
  unfold len, struct.calcsize_header.
  destruct c; simpl; intros H.
  - destruct bs as [|b0 [|b1 [|b2 [|b3 bs]]]]; simpl in H; try lia.
    eauto.
  - destruct bs as [|b0 [|b1 [|b2 [|b3 [|b4 bs]]]]]; simpl in H; try lia.
    eauto.
Qed.

Lemma unpack_H_total (bs : list byte) :
  len bs = 2 -> exists n, struct.unpack_H bs = Ok n.
Proof.
  unfold len. destruct bs as [|lo [|hi [|x bs]]]; simpl; intros H; try lia.
  eauto.
Qed.

Lemma unpack_header_pack (c : struct.code) (t k n : Z) :
  0 <= t < 256 -> 0 <= k < 256 -> 0 <= n < 256 ^ struct.size c ->
  struct.unpack_header c
    ([z2b t; z2b k] ++
     match c with struct.B => [z2b n] | struct.H => le16 n end)
  = Ok (t, k, n).
Proof.
  intros Ht Hk Hn. destruct c; simpl in *.
  - change (256 ^ 1) with 256 in Hn. rewrite !b2z_z2b by lia. reflexivity.
  - change (256 ^ 2) with 65536 in Hn.
    pose proof (unpack_H_le16 n Hn) as E. unfold le16 in E. simpl in E.
    injection E as E. rewrite E, !b2z_z2b by lia. reflexivity.
Qed.

(** ** [binascii.crc_hqx]: range, and detection of a changed byte *)

Lemma all_below_spec (P : Z -> bool) (n : nat) (z : Z) :
  all_below P n z = true ->
  forall x, z <= x < z + Z.of_nat n -> P x = true.
Proof.
  revert z. induction n as [|n IH]; intros z H x Hx.
  - lia.
  - cbn [all_below] in H. apply andb_true_iff in H. destruct H as [Hz Hn].
    destruct (Z.eq_dec x z) as [->|Hne]; [assumption|].
    apply (IH (z + 1)); [assumption | lia].
Qed.

Lemma land_ffff_range (x : Z) : 0 <= Z.land x 0xffff < 65536.
Proof.
  change 0xffff with (Z.ones 16). rewrite Z.land_ones by lia.
  apply Z.mod_pos_bound. reflexivity.
Qed.

Lemma land_lxor_distr (a b m : Z) :
  Z.land (Z.lxor a b) m = Z.lxor (Z.land a m) (Z.land b m).
Proof.
  apply Z.bits_inj'. intros n Hn.
  rewrite Z.land_spec, !Z.lxor_spec, !Z.land_spec.
  destruct (Z.testbit a n), (Z.testbit b n), (Z.testbit m n); reflexivity.
Qed.

Lemma lxor_u16 (a b : Z) :
  0 <= a < 65536 -> 0 <= b < 65536 -> 0 <= Z.lxor a b < 65536.
Proof.
  intros Ha Hb.
  assert (E : Z.lxor a b = Z.land (Z.lxor a b) 0xffff).
  { change 0xffff with (Z.ones 16).
    rewrite land_lxor_distr, !Z.land_ones by lia.
    change (2 ^ 16) with 65536. rewrite !Z.mod_small by lia. reflexivity. }
  rewrite E. apply land_ffff_range.
Qed.

Lemma lxor_cancel_r (a b c : Z) : Z.lxor a c = Z.lxor b c -> a = b.
Proof.
  intros E.
  rewrite <- (Z.lxor_0_r a), <- (Z.lxor_0_r b), <- (Z.lxor_nilpotent c).
  rewrite <- !Z.lxor_assoc, E. reflexivity.
Qed.

Lemma lxor_cancel_l (a b c : Z) : Z.lxor c a = Z.lxor c b -> a = b.
Proof.
  rewrite (Z.lxor_comm c a), (Z.lxor_comm c b). apply lxor_cancel_r.
Qed.

Lemma crc_hqx_bit_range (x : Z) : 0 <= binascii.crc_hqx_bit x < 65536.
Proof.
  unfold binascii.crc_hqx_bit. destruct (Z.testbit x 15);
    apply land_ffff_range.
Qed.

Lemma crc_hqx_unbit_bit (x : Z) :
  0 <= x < 65536 -> crc_hqx_unbit (binascii.crc_hqx_bit x) = x.
Proof.
  intros Hx. apply Z.eqb_eq.
  apply (all_below_spec
           (fun x => crc_hqx_unbit (binascii.crc_hqx_bit x) =? x)
           (Z.to_nat 65536) 0).
  - vm_compute. reflexivity.
  - lia.
Qed.

Lemma crc_hqx_bit_inj (x y : Z) :
  0 <= x < 65536 -> 0 <= y < 65536 ->
  binascii.crc_hqx_bit x = binascii.crc_hqx_bit y -> x = y.
Proof.
  intros Hx Hy E.
  rewrite <- (crc_hqx_unbit_bit x Hx), <- (crc_hqx_unbit_bit y Hy), E.
  reflexivity.
Qed.

Lemma crc_hqx_iter_range (n : nat) (x : Z) :
  0 <= x < 65536 -> 0 <= Nat.iter n binascii.crc_hqx_bit x < 65536.
Proof.
  intros Hx. destruct n as [|n]; cbn [Nat.iter nat_rect].
  - assumption.
  - apply crc_hqx_bit_range.
Qed.

Lemma crc_hqx_iter_inj (n : nat) (x y : Z) :
  0 <= x < 65536 -> 0 <= y < 65536 ->
  Nat.iter n binascii.crc_hqx_bit x = Nat.iter n binascii.crc_hqx_bit y ->
  x = y.
Proof.
  intros Hx Hy. induction n as [|n IH]; cbn [Nat.iter nat_rect]; intros E.
  - assumption.
  - apply IH. apply crc_hqx_bit_inj; try assumption;
      apply crc_hqx_iter_range; assumption.
Qed.

Lemma shiftl8_range (b : byte) : 0 <= Z.shiftl (b2z b) 8 < 65536.
Proof.
  pose proof (b2z_range b). rewrite Z.shiftl_mul_pow2 by lia.
  change (2 ^ 8) with 256. lia.
Qed.

Lemma crc_hqx_byte_range (x : Z) (b : byte) :
  0 <= x < 65536 -> 0 <= binascii.crc_hqx_byte x b < 65536.
Proof.
  intros Hx. apply crc_hqx_iter_range, lxor_u16;
    [assumption | apply shiftl8_range].
Qed.

Lemma crc_hqx_byte_inj_state (x y : Z) (b : byte) :
  0 <= x < 65536 -> 0 <= y < 65536 ->
  binascii.crc_hqx_byte x b = binascii.crc_hqx_byte y b -> x = y.
Proof.
  intros Hx Hy E. apply crc_hqx_iter_inj in E.
  - apply lxor_cancel_r in E. assumption.
  - apply lxor_u16; [assumption | apply shiftl8_range].
  - apply lxor_u16; [assumption | apply shiftl8_range].
Qed.

Lemma crc_hqx_byte_inj_byte (x : Z) (a b : byte) :
  0 <= x < 65536 ->
  binascii.crc_hqx_byte x a = binascii.crc_hqx_byte x b -> a = b.
Proof.
  intros Hx E. apply crc_hqx_iter_inj in E.
  - apply lxor_cancel_l in E. apply b2z_inj.
    rewrite !Z.shiftl_mul_pow2 in E by lia. lia.
  - apply lxor_u16; [assumption | apply shiftl8_range].
  - apply lxor_u16; [assumption | apply shiftl8_range].
Qed.

Lemma crc_fold_range (d : list byte) (x : Z) :
  0 <= x < 65536 -> 0 <= fold_left binascii.crc_hqx_byte d x < 65536.
Proof.
  revert x. induction d as [|b d IH]; intros x Hx; cbn [fold_left].
  - assumption.
  - apply IH, crc_hqx_byte_range, Hx.
Qed.

Lemma crc_fold_inj (d : list byte) (x y : Z) :
  0 <= x < 65536 -> 0 <= y < 65536 ->
  fold_left binascii.crc_hqx_byte d x = fold_left binascii.crc_hqx_byte d y ->
  x = y.
Proof.
  revert x y. induction d as [|b d IH]; intros x y Hx Hy; cbn [fold_left].
  - auto.
  - intros E. apply IH in E; try (apply crc_hqx_byte_range; assumption).
    apply crc_hqx_byte_inj_state in E; assumption.
Qed.

Lemma crc_hqx_range (d : list byte) (v : Z) :
  0 <= binascii.crc_hqx d v < 65536.
Proof.
  apply crc_fold_range, land_ffff_range.
Qed.

(** Two byte strings that differ in exactly one byte never have the same
    CRC, whatever the starting value. *)
Lemma crc_hqx_detects (pre post : list byte) (a b : byte) (v : Z) :
  a <> b ->
  binascii.crc_hqx (pre ++ a :: post) v <>
  binascii.crc_hqx (pre ++ b :: post) v.
Proof.
  intros Hab E. unfold binascii.crc_hqx in E.
  rewrite !fold_left_app in E. cbn [fold_left] in E.
  pose proof (crc_fold_range pre _ (land_ffff_range v)) as Hs.
  apply crc_fold_inj in E; try (apply crc_hqx_byte_range; assumption).
  apply crc_hqx_byte_inj_byte in E; auto.
Qed.

Lemma flip_bit_byte_neq (k : Z) (b : byte) :
  0 <= k < 8 -> flip_bit_byte k b <> b.
Proof.
  intros Hk.
  assert (C : all_below (fun k => all_below (fun z =>
                negb (Byte.eqb (flip_bit_byte k (z2b z)) (z2b z)))
                256 0) 8 0 = true) by (vm_compute; reflexivity).
  pose proof (all_below_spec _ _ _ C k ltac:(lia)) as Ck.
  cbv beta in Ck.
  pose proof (all_below_spec _ _ _ Ck (b2z b)) as Cb.
  cbv beta in Cb. rewrite z2b_b2z in Cb.
  pose proof (b2z_range b).
  specialize (Cb ltac:(lia)).
  apply negb_true_iff in Cb. apply Byte.eqb_false in Cb. assumption.
Qed.

(** ** One pass of the decoding loop, case by case *)

Lemma ltb_false (a b : Z) : b <= a -> (a <? b) = false.
Proof. intros H. apply Z.ltb_ge. assumption. Qed.

Lemma ltb_true (a b : Z) : a < b -> (a <? b) = true.
Proof. intros H. apply Z.ltb_lt. assumption. Qed.

Lemma crc_recognized (framing : Z) (f : format) (d : list byte) :
  Packet.formats framing = Some f ->
  Packet.crc framing d = Ok (binascii.crc_hqx d (initial_crc_value f)).
Proof.
  intros Hf. unfold Packet.crc, Packet.formats_get. rewrite Hf. reflexivity.
Qed.

Lemma init_recognized (framing : Z) (f : format) (k t : Z) (d : list byte) :
  Packet.formats framing = Some f ->
  Packet.init k framing t d =
  Ok {| Packet.command := k; Packet.framing := framing;
        Packet.target := t; Packet.data := d |}.
Proof.
  intros Hf. unfold Packet.init. rewrite Hf. reflexivity.
Qed.

(** The loop test fails. *)
Lemma body_short (buf : list byte) :
  len buf < 2 -> PacketReceiver.body buf = PacketReceiver.Break.
Proof.
  intros H. unfold PacketReceiver.body. rewrite ltb_true by assumption.
  reflexivity.
Qed.

(** An unrecognized marker: one byte is dropped. *)
Lemma body_skip (lo hi : byte) (rest : list byte) :
  Packet.formats (b2z lo + 256 * b2z hi) = None ->
  PacketReceiver.body (lo :: hi :: rest) =
  PacketReceiver.Continue None (hi :: rest).
Proof.
  intros Hf. unfold PacketReceiver.body.
  rewrite ltb_false
    by (change (lo :: hi :: rest) with ([lo; hi] ++ rest);
        rewrite len_app; pose proof (len_nonneg rest);
        change (len [lo; hi]) with 2; lia).
  change (lo :: hi :: rest) with ([lo; hi] ++ rest) at 1.
  rewrite slice_head by reflexivity.
  cbn [struct.unpack_H]. rewrite Hf. reflexivity.
Qed.

(** A recognized marker, but the header and the CRC are not all there. *)
Lemma body_wait_header (m tail : list byte) (framing : Z) (f : format) :
  struct.unpack_H m = Ok framing ->
  Packet.formats framing = Some f ->
  len tail < struct.calcsize_header (len_struct f) + 2 ->
  PacketReceiver.body (m ++ tail) = PacketReceiver.Break.
Proof.
  intros Hm Hf Ht. destruct (unpack_H_length _ _ Hm) as [Lm _].
  pose proof (len_nonneg tail).
  unfold PacketReceiver.body.
  rewrite ltb_false by (rewrite len_app; lia).
  rewrite slice_head, Hm, Hf by lia. cbv beta iota zeta.
  rewrite ltb_true by (rewrite len_app; lia). reflexivity.
Qed.

(** A recognized marker and a header, but the payload and the CRC are not
    all there. *)
Lemma body_wait_data (m hdr tail : list byte) (framing : Z) (f : format)
      (t k n : Z) :
  struct.unpack_H m = Ok framing ->
  Packet.formats framing = Some f ->
  struct.unpack_header (len_struct f) hdr = Ok (t, k, n) ->
  len tail < n + 2 ->
  PacketReceiver.body (m ++ hdr ++ tail) = PacketReceiver.Break.
Proof.
  intros Hm Hf Hh Ht. destruct (unpack_H_length _ _ Hm) as [Lm _].
  destruct (unpack_header_length _ _ _ _ _ Hh) as (Lh & _ & _ & Hn).
  pose proof (len_nonneg tail). pose proof (len_nonneg hdr).
  unfold PacketReceiver.body.
  rewrite ltb_false by (rewrite !len_app; lia).
  rewrite slice_head, Hm, Hf by lia. cbv beta iota zeta.
  destruct (len (m ++ hdr ++ tail) <?
            struct.calcsize_header (len_struct f) + 4); [reflexivity|].
  rewrite (slice_app _ _ m hdr tail), Hh by lia. cbv beta iota zeta.
  rewrite ltb_true by (rewrite !len_app; lia). reflexivity.
Qed.

(** A whole candidate frame is buffered: it is consumed, and yielded or
    reported according to its CRC. *)
Lemma body_frame (m hdr d c rest : list byte) (framing : Z) (f : format)
      (t k rx : Z) :
  struct.unpack_H m = Ok framing ->
  Packet.formats framing = Some f ->
  struct.unpack_header (len_struct f) hdr = Ok (t, k, len d) ->
  struct.unpack_H c = Ok rx ->
  PacketReceiver.body (m ++ hdr ++ d ++ c ++ rest) =
  let calc := binascii.crc_hqx (hdr ++ d) (initial_crc_value f) in
  if negb (rx =? calc)
  then PacketReceiver.Continue
         (Some (PacketReceiver.PrintCrcMismatch rx calc)) rest
  else PacketReceiver.Continue
         (Some (PacketReceiver.Yield
                  {| Packet.command := k; Packet.framing := framing;
                     Packet.target := t; Packet.data := d |})) rest.
Proof.
  intros Hm Hf Hh Hc. destruct (unpack_H_length _ _ Hm) as [Lm _].
  destruct (unpack_header_length _ _ _ _ _ Hh) as (Lh & _ & _ & Hn).
  destruct (unpack_H_length _ _ Hc) as [Lc _].
  pose proof (len_nonneg rest). pose proof (len_nonneg d).
  pose proof (len_nonneg hdr).
  set (hl := struct.calcsize_header (len_struct f)) in *.
  assert (Lbuf : len (m ++ hdr ++ d ++ c ++ rest)
                 = 4 + hl + len d + len rest)
    by (rewrite !len_app; lia).
  assert (S2 : slice 2 (2 + hl) (m ++ hdr ++ d ++ c ++ rest) = hdr)
    by (apply slice_app; lia).
  assert (S3 : slice (2 + hl) (2 + hl + len d) (m ++ hdr ++ d ++ c ++ rest)
               = d).
  { replace (m ++ hdr ++ d ++ c ++ rest) with ((m ++ hdr) ++ d ++ c ++ rest)
      by (rewrite <- !app_assoc; reflexivity).
    apply slice_app; rewrite ?len_app; lia. }
  assert (S4 : slice (2 + hl + len d) (4 + hl + len d)
                 (m ++ hdr ++ d ++ c ++ rest) = c).
  { replace (m ++ hdr ++ d ++ c ++ rest) with ((m ++ hdr ++ d) ++ c ++ rest)
      by (rewrite <- !app_assoc; reflexivity).
    apply slice_app; rewrite ?len_app; lia. }
  assert (S5 : drop (4 + hl + len d) (m ++ hdr ++ d ++ c ++ rest) = rest).
  { replace (m ++ hdr ++ d ++ c ++ rest) with ((m ++ hdr ++ d ++ c) ++ rest)
      by (rewrite <- !app_assoc; reflexivity).
    apply drop_app; rewrite ?len_app; lia. }
  unfold PacketReceiver.body. fold hl.
  rewrite ltb_false by lia.
  rewrite slice_head, Hm, Hf by lia. cbv beta iota zeta. fold hl.
  rewrite ltb_false by lia.
  rewrite S2, Hh. cbv beta iota zeta.
  rewrite ltb_false by lia.
  rewrite S3, S4, S5, Hc, (crc_recognized _ _ _ Hf).
  rewrite (init_recognized _ _ _ _ _ Hf). reflexivity.
Qed.

Lemma take_split {A} (n : Z) (l : list A) :
  0 <= n <= len l ->
  exists xs ys, l = xs ++ ys /\ len xs = n /\ len ys = len l - n.
Proof.
  intros Hn. exists (firstn (Z.to_nat n) l), (skipn (Z.to_nat n) l).
  unfold len in *. rewrite length_skipn, firstn_length_le by lia.
  repeat split; [symmetry; apply firstn_skipn | lia | lia].
Qed.

(** Every pass of the loop body is one of the six listed by [pass]. *)
Lemma body_pass (buf : list byte) : pass buf (PacketReceiver.body buf).
Proof.
  destruct buf as [|lo [|hi rest]];
    try (rewrite body_short by (unfold len; simpl; lia);
         apply pass_short; unfold len; simpl; lia).
  destruct (Packet.formats (b2z lo + 256 * b2z hi)) as [f|] eqn:Hf.
  2:{ rewrite body_skip by assumption. apply pass_skip. assumption. }
  change (lo :: hi :: rest) with ([lo; hi] ++ rest).
  assert (Hm : struct.unpack_H [lo; hi] = Ok (b2z lo + 256 * b2z hi))
    by reflexivity.
  set (hl := struct.calcsize_header (len_struct f)).
  assert (Hhl : 3 <= hl) by (subst hl; destruct (len_struct f); cbv; discriminate).
  destruct (Z_lt_dec (len rest) (hl + 2)) as [Hw|Hw].
  { rewrite (body_wait_header _ _ _ _ Hm Hf Hw).
    eapply pass_wait_header; eassumption. }
  destruct (take_split hl rest ltac:(lia)) as (hdr & tail & -> & Lh & Lt).
  destruct (unpack_header_total (len_struct f) hdr Lh) as (t & k & n & Hh).
  destruct (unpack_header_length _ _ _ _ _ Hh) as (_ & _ & _ & Hn).
  destruct (Z_lt_dec (len tail) (n + 2)) as [Hd|Hd].
  { rewrite (body_wait_data _ _ _ _ _ _ _ _ Hm Hf Hh Hd).
    eapply pass_wait_data; eassumption. }
  destruct (take_split n tail ltac:(lia)) as (d & tail' & -> & Ld & Lt').
  destruct (take_split 2 tail' ltac:(lia)) as (c & rest' & -> & Lc & _).
  destruct (unpack_H_total c Lc) as (rx & Hc).
  subst n.
  rewrite (body_frame _ _ _ _ _ _ _ _ _ _ Hm Hf Hh Hc). cbv zeta.
  destruct (Z.eqb_spec rx
              (binascii.crc_hqx (hdr ++ d) (initial_crc_value f)))
    as [E|E]; cbn [negb].
  - eapply pass_yield; eassumption.
  - eapply pass_mismatch; eassumption.
Qed.

(** No pass raises: every [struct.unpack] gets a buffer of the size of its
    format, and the framing passed on to [Packet.crc] and [Packet] is a key
    of [formats]. *)
Lemma body_never_raises (buf : list byte) (e : exn) (b : list byte) :
  PacketReceiver.body buf <> PacketReceiver.Raise e b.
Proof.
  intros E. pose proof (body_pass buf) as P. rewrite E in P. inversion P.
Qed.

(** A pass that goes round again has removed at least one byte. *)
Lemma body_decreases (buf : list byte) (o : option PacketReceiver.event)
      (b : list byte) :
  PacketReceiver.body buf = PacketReceiver.Continue o b ->
  (length b < length buf)%nat.
Proof.
  intros E. pose proof (body_pass buf) as P. rewrite E in P.
  inversion P; subst.
  - simpl. lia.
  - match goal with
    | Hm : struct.unpack_H m = Ok framing |- _ =>
        destruct (unpack_H_length _ _ Hm) as [Lm _]
    end.
    rewrite !length_app. unfold len in Lm. lia.
  - match goal with
    | Hm : struct.unpack_H m = Ok framing |- _ =>
        destruct (unpack_H_length _ _ Hm) as [Lm _]
    end.
    rewrite !length_app. unfold len in Lm. lia.
Qed.

(** What a pass decides does not depend on the bytes behind those it
    consumed. *)
Lemma body_prefix_stable (buf more : list byte)
      (o : option PacketReceiver.event) (b : list byte) :
  PacketReceiver.body buf = PacketReceiver.Continue o b ->
  PacketReceiver.body (buf ++ more) = PacketReceiver.Continue o (b ++ more).
Proof.
  intros E. pose proof (body_pass buf) as P. rewrite E in P.
  inversion P; subst.
  - cbn [app]. apply body_skip. assumption.
  - rewrite <- !app_assoc.
    erewrite body_frame by eassumption. cbv zeta.
    destruct (Z.eqb_spec rx
                (binascii.crc_hqx (hdr ++ d) (initial_crc_value f)));
      [contradiction | reflexivity].
  - rewrite <- !app_assoc.
    erewrite body_frame by eassumption. cbv zeta.
    rewrite Z.eqb_refl. reflexivity.
Qed.

(** ** The loop: termination, fuel, and streaming *)

Import PacketReceiver.

Lemma emit_then_run (o : option event) (r r' : run) :
  then_run (emit o r) r' = emit o (then_run r r').
Proof. destruct o; reflexivity. Qed.

Lemma raised_emit (o : option event) (r : run) :
  raised (emit o r) = raised r.
Proof. destruct o; reflexivity. Qed.

Lemma buffer_emit (o : option event) (r : run) :
  buffer (emit o r) = buffer r.
Proof. destruct o; reflexivity. Qed.

(** The loop ends within [length buf + 1] passes, and without an
    exception. *)
Lemma loop_enough (fuel : nat) (buf : list byte) :
  (length buf < fuel)%nat ->
  exists r, loop fuel buf = Some r /\ raised r = None.
Proof.
  revert buf. induction fuel as [|fuel IH]; intros buf Hlen; [lia|].
  cbn [loop]. destruct (body buf) as [|o b|e b] eqn:E.
  - eexists. split; reflexivity.
  - apply body_decreases in E.
    destruct (IH b ltac:(lia)) as (r & -> & Hr).
    exists (emit o r). split; [reflexivity | rewrite raised_emit; exact Hr].
  - exfalso. exact (body_never_raises _ _ _ E).
Qed.

Lemma loop_more_fuel (fuel k : nat) (buf : list byte) (r : run) :
  loop fuel buf = Some r -> loop (fuel + k) buf = Some r.
Proof.
  revert buf r. induction fuel as [|fuel IH]; intros buf r; [discriminate|].
  cbn [loop Nat.add]. destruct (body buf) as [|o b|e b]; auto.
  destruct (loop fuel b) as [r0|] eqn:E0; [|discriminate].
  rewrite (IH _ _ E0). auto.
Qed.

Lemma loop_deterministic (f1 f2 : nat) (buf : list byte) (r1 r2 : run) :
  loop f1 buf = Some r1 -> loop f2 buf = Some r2 -> r1 = r2.
Proof.
  intros H1 H2.
  apply (loop_more_fuel _ f2) in H1. apply (loop_more_fuel _ f1) in H2.
  rewrite Nat.add_comm in H2. congruence.
Qed.

Lemma loop_never_raises (fuel : nat) (buf : list byte) (r : run) :
  loop fuel buf = Some r -> raised r = None.
Proof.
  intros H.
  destruct (loop_enough (S (length buf)) buf ltac:(lia)) as (r' & H' & Hr).
  rewrite (loop_deterministic _ _ _ _ _ H H'). exact Hr.
Qed.

Lemma parse_of_loop (fuel : nat) (self_buffer d : list byte) (r : run) :
  loop fuel (self_buffer ++ d) = Some r -> parse self_buffer d = Some r.
Proof.
  intros H. unfold parse.
  destruct (loop_enough (S (length (self_buffer ++ d))) (self_buffer ++ d)
              ltac:(lia)) as (r' & H' & _).
  rewrite H'. f_equal. exact (loop_deterministic _ _ _ _ _ H' H).
Qed.

Lemma parse_total (self_buffer d : list byte) :
  exists r, parse self_buffer d = Some r /\ raised r = None.
Proof.
  unfold parse. apply loop_enough. lia.
Qed.

(** When a run ends, the next pass over what is left would leave the loop
    at once. *)
Lemma loop_settled (fuel : nat) (buf : list byte) (r : run) :
  loop fuel buf = Some r -> body (buffer r) = Break.
Proof.
  revert buf r. induction fuel as [|fuel IH]; intros buf r; [discriminate|].
  cbn [loop]. destruct (body buf) as [|o b|e b] eqn:E.
  - intros X. injection X as <-. exact E.
  - destruct (loop fuel b) as [r0|] eqn:E0; [|discriminate].
    intros X. injection X as <-. rewrite buffer_emit. eauto.
  - exfalso. exact (body_never_raises _ _ _ E).
Qed.

(** Running on [buf], then on what that run left followed by [more], is
    running on [buf ++ more]. *)
Lemma loop_app (fuel : nat) (buf more : list byte) (r : run) :
  loop fuel buf = Some r ->
  forall fuel' r', loop fuel' (buffer r ++ more) = Some r' ->
  exists fuel'', loop fuel'' (buf ++ more) = Some (then_run r r').
Proof.
  revert buf r. induction fuel as [|fuel IH]; intros buf r; [discriminate|].
  cbn [loop]. destruct (body buf) as [|o b|e b] eqn:E.
  - intros X. injection X as <-. intros fuel' r' H'.
    exists fuel'. cbn [buffer] in H'. rewrite H'. destruct r'; reflexivity.
  - destruct (loop fuel b) as [r0|] eqn:E0; [|discriminate].
    intros X. injection X as <-. intros fuel' r' H'.
    rewrite buffer_emit in H'.
    destruct (IH _ _ E0 _ _ H') as (fuel'' & H'').
    exists (S fuel''). cbn [loop].
    rewrite (body_prefix_stable _ more _ _ E), H''. cbn [option_map].
    rewrite emit_then_run. reflexivity.
  - exfalso. exact (body_never_raises _ _ _ E).
Qed.

Lemma parse_app (self_buffer d1 d2 : list byte) (r1 r2 : run) :
  parse self_buffer d1 = Some r1 ->
  parse (buffer r1) d2 = Some r2 ->
  parse self_buffer (d1 ++ d2) = Some (then_run r1 r2).
Proof.
  unfold parse at 1 2. intros H1 H2.
  destruct (loop_app _ _ d2 _ H1 _ _ H2) as (fuel & H).
  rewrite <- app_assoc in H. exact (parse_of_loop _ _ _ _ H).
Qed.

(** On a receiver whose buffer a run has left (or a new one), feeding chunks
    one by one is feeding their concatenation at once. *)
Lemma feed_concat (chunks : list (list byte)) (self_buffer : list byte) :
  body self_buffer = Break ->
  feed self_buffer chunks = parse self_buffer (concat chunks).
Proof.
  revert self_buffer.
  induction chunks as [|c cs IH]; intros self_buffer Hs.
  - cbn [feed concat]. symmetry. apply (parse_of_loop 1).
    rewrite app_nil_r. cbn [loop]. rewrite Hs. reflexivity.
  - cbn [feed concat].
    destruct (parse_total self_buffer c) as (r & Hr & Hraised).
    rewrite Hr, Hraised.
    assert (Hset : body (buffer r) = Break)
      by (unfold parse in Hr; exact (loop_settled _ _ _ Hr)).
    rewrite (IH _ Hset).
    destruct (parse_total (buffer r) (concat cs)) as (r' & Hr' & _).
    rewrite Hr'. cbn [option_map].
    symmetry. exact (parse_app _ _ _ _ _ Hr Hr').
Qed.

(** ** [Packet.pack] *)

Lemma formats_inv (key : Z) (f : format) :
  Packet.formats key = Some f ->
  (key = LONG_FORM /\
   f = {| len_struct := struct.H; initial_crc_value := 0xffff |}) \/
  (key = SHORT_FORM /\
   f = {| len_struct := struct.B; initial_crc_value := 0x0000 |}).
Proof.
  unfold Packet.formats.
  destruct (Z.eqb_spec key LONG_FORM) as [->|_].
  - intros X. injection X as <-. left. auto.
  - destruct (Z.eqb_spec key SHORT_FORM) as [->|_]; [|discriminate].
    intros X. injection X as <-. right. auto.
Qed.

Lemma formats_range (key : Z) (f : format) :
  Packet.formats key = Some f -> 0 <= key < 65536.
Proof.
  intros H. destruct (formats_inv _ _ H) as [[-> _]|[-> _]];
    unfold LONG_FORM, SHORT_FORM; lia.
Qed.

Lemma length_field_max_pow (c : struct.code) :
  256 ^ struct.size c = length_field_max c + 1.
Proof. destruct c; reflexivity. Qed.

Lemma pack_ok (p : Packet.t) (f : format) :
  Packet.formats (Packet.framing p) = Some f ->
  u8 (Packet.target p) -> u8 (Packet.command p) ->
  len (Packet.data p) <= length_field_max (len_struct f) ->
  Packet.pack p =
  Ok (le16 (Packet.framing p) ++ covered (len_struct f) p ++
      le16 (binascii.crc_hqx (covered (len_struct f) p)
              (initial_crc_value f))).
Proof.
  intros Hf Ht Hk Hn. unfold Packet.pack.
  rewrite (pack_BB_ok _ _ Ht Hk). cbn [bind].
  unfold Packet.formats_get. rewrite Hf. cbn [bind].
  pose proof (len_nonneg (Packet.data p)).
  rewrite pack_int_ok by (rewrite length_field_max_pow; lia). cbn [bind].
  rewrite (crc_recognized _ _ _ Hf). cbn [bind].
  rewrite pack_H_ok by apply crc_hqx_range. cbn [bind].
  rewrite pack_H_ok by (eapply formats_range; eassumption). cbn [bind].
  unfold covered, length_field, le16.
  destruct (len_struct f); reflexivity.
Qed.

Lemma pack_inv (p : Packet.t) (frame : list byte) :
  Packet.pack p = Ok frame ->
  exists f,
    Packet.formats (Packet.framing p) = Some f /\
    u8 (Packet.target p) /\ u8 (Packet.command p) /\
    len (Packet.data p) <= length_field_max (len_struct f).
Proof.
  unfold Packet.pack.
  destruct (struct.pack_BB (Packet.target p) (Packet.command p))
    as [p0|] eqn:E0; [|discriminate].
  apply pack_BB_spec in E0. destruct E0 as (Ht & Hk & _). cbn [bind].
  unfold Packet.formats_get at 1.
  destruct (Packet.formats (Packet.framing p)) as [f|] eqn:Hf;
    [|discriminate].
  cbn [bind].
  destruct (struct.pack_int (len_struct f) (len (Packet.data p)))
    as [p1|] eqn:E1; [|discriminate].
  apply pack_int_spec in E1. destruct E1 as (Hn & _ & _).
  rewrite length_field_max_pow in Hn.
  intros _. exists f. unfold u8. repeat split; try assumption; lia.
Qed.

Lemma header_of_covered (c : struct.code) (p : Packet.t) :
  u8 (Packet.target p) -> u8 (Packet.command p) ->
  len (Packet.data p) <= length_field_max c ->
  struct.unpack_header c
    ([z2b (Packet.target p); z2b (Packet.command p)] ++
     length_field c (len (Packet.data p)))
  = Ok (Packet.target p, Packet.command p, len (Packet.data p)).
Proof.
  intros Ht Hk Hn. pose proof (len_nonneg (Packet.data p)).
  apply (unpack_header_pack c); try assumption.
  rewrite length_field_max_pow. lia.
Qed.

(** A run over one buffered frame whose CRC is right, followed by nothing. *)
Lemma parse_one_frame (m hdr d c : list byte) (framing : Z) (f : format)
      (t k rx : Z) :
  struct.unpack_H m = Ok framing ->
  Packet.formats framing = Some f ->
  struct.unpack_header (len_struct f) hdr = Ok (t, k, len d) ->
  struct.unpack_H c = Ok rx ->
  parse init (m ++ hdr ++ d ++ c) =
  Some {| out :=
            [if negb (rx =? binascii.crc_hqx (hdr ++ d) (initial_crc_value f))
             then PrintCrcMismatch rx
                    (binascii.crc_hqx (hdr ++ d) (initial_crc_value f))
             else Yield {| Packet.command := k; Packet.framing := framing;
                           Packet.target := t; Packet.data := d |}];
          buffer := []; raised := None |}.
Proof.
  intros Hm Hf Hh Hc. apply (parse_of_loop 2). cbn [init app loop].
  pose proof (body_frame m hdr d c [] _ _ _ _ _ Hm Hf Hh Hc) as E.
  rewrite app_nil_r in E. rewrite E. cbv zeta.
  destruct (negb (rx =? binascii.crc_hqx (hdr ++ d) (initial_crc_value f)));
    rewrite body_short by (unfold len; simpl; lia); reflexivity.
Qed.

(** What [pack] returns is decoded to the packet it came from. *)
Lemma parse_pack (p : Packet.t) (frame : list byte) :
  Packet.pack p = Ok frame ->
  parse init frame =
  Some {| out := [Yield p]; buffer := []; raised := None |}.
Proof.
  intros Hp. destruct (pack_inv _ _ Hp) as (f & Hf & Ht & Hk & Hn).
  assert (E : frame =
              le16 (Packet.framing p) ++ covered (len_struct f) p ++
              le16 (binascii.crc_hqx (covered (len_struct f) p)
                      (initial_crc_value f)))
    by (pose proof (pack_ok _ _ Hf Ht Hk Hn); congruence).
  rewrite E. clear E Hp.
  set (hdr := [z2b (Packet.target p); z2b (Packet.command p)] ++
              length_field (len_struct f) (len (Packet.data p))).
  assert (Ecov : covered (len_struct f) p = hdr ++ Packet.data p)
    by reflexivity.
  rewrite Ecov, <- app_assoc.
  rewrite (parse_one_frame _ hdr _ _ (Packet.framing p) f
             (Packet.target p) (Packet.command p) _
             (unpack_H_le16 _ (formats_range _ _ Hf)) Hf
             (header_of_covered _ _ Ht Hk Hn)
             (unpack_H_le16 _ (crc_hqx_range _ _))).
  rewrite Z.eqb_refl. cbn [negb]. destruct p; reflexivity.
Qed.

(** * The protocol properties *)

(** ** Round trip *)

(** C1. A packet constructed with a recognized framing, with 8-bit target and
    command, and with a payload whose length fits the length field of that
    framing, is packed into bytes from which a new receiver yields exactly
    that packet: same framing, target, command and payload, nothing else
    yielded or printed, nothing left in the buffer. *)
Theorem pack_parse_roundtrip (k fr t : Z) (d : list byte) (p : Packet.t)
        (f : format) :
  Packet.init k fr t d = Ok p ->
  Packet.formats fr = Some f ->
  u8 t -> u8 k ->
  len d <= length_field_max (len_struct f) ->
  exists frame,
    Packet.pack p = Ok frame /\
    parse init frame =
      Some {| out := [Yield p]; buffer := []; raised := None |} /\
    Packet.framing p = fr /\ Packet.target p = t /\
    Packet.command p = k /\ Packet.data p = d.
Proof.
  intros Hinit Hf Ht Hk Hn.
  rewrite (init_recognized _ _ _ _ _ Hf) in Hinit.
  assert (Ep : p = {| Packet.command := k; Packet.framing := fr;
                      Packet.target := t; Packet.data := d |})
    by congruence.
  subst p. eexists. split.
  - apply (pack_ok _ f); assumption.
  - split; [|repeat split].
    apply parse_pack. apply (pack_ok _ f); assumption.
Qed.

Lemma pack_parse_roundtrip_witness :
  exists frame,
    Packet.pack scenario_packet = Ok frame /\
    parse init frame =
      Some {| out := [Yield scenario_packet]; buffer := [];
              raised := None |} /\
    Packet.framing scenario_packet = SHORT_FORM /\
    Packet.target scenario_packet = 0 /\
    Packet.command scenario_packet = 1 /\
    Packet.data scenario_packet = [x05; x00].
Proof.
  apply (pack_parse_roundtrip 1 SHORT_FORM 0 [x05; x00] scenario_packet
           short_format).
  - reflexivity.
  - reflexivity.
  - unfold u8. lia.
  - unfold u8. lia.
  - vm_compute. discriminate.
Defined.

(** ** Wire layout *)

(** C2. [pack] emits marker (2 bytes), target (1), command (1), the length
    field (1 byte for the short form, 2 bytes for the long form, holding the
    payload length), the payload as it is, and a 2-byte CRC, every
    multi-byte integer with its low byte first.  The short-form packet with
    target 0, command 1 and payload 05 00 is packed into A5 5A 00 01 02, its
    two payload bytes, and the CRC with seed 0 of 00 01 02 05 00; a new
    receiver given these bytes yields that packet. *)
Theorem pack_wire_layout :
  (forall (p : Packet.t) (f : format),
      Packet.formats (Packet.framing p) = Some f ->
      u8 (Packet.target p) -> u8 (Packet.command p) ->
      len (Packet.data p) <= length_field_max (len_struct f) ->
      let n := len (Packet.data p) in
      let length_bytes :=
        match len_struct f with
        | struct.B => [z2b n]
        | struct.H => [z2b (n mod 256); z2b (n / 256)]
        end in
      let c :=
        binascii.crc_hqx
          ([z2b (Packet.target p); z2b (Packet.command p)] ++
           length_bytes ++ Packet.data p)
          (initial_crc_value f) in
      Packet.pack p =
      Ok ([z2b (Packet.framing p mod 256); z2b (Packet.framing p / 256)] ++
          [z2b (Packet.target p)] ++ [z2b (Packet.command p)] ++
          length_bytes ++ Packet.data p ++
          [z2b (c mod 256); z2b (c / 256)])) /\
  Packet.formats SHORT_FORM = Some short_format /\
  Packet.formats LONG_FORM = Some long_format /\
  (let c := binascii.crc_hqx [x00; x01; x02; x05; x00] 0x0000 in
   let bytes :=
     [xa5; x5a; x00; x01; x02] ++ [x05; x00] ++
     [z2b (c mod 256); z2b (c / 256)] in
   Packet.pack scenario_packet = Ok bytes /\
   parse init bytes =
     Some {| out := [Yield scenario_packet]; buffer := [];
             raised := None |}).
Proof.
  split; [|split; [reflexivity | split; [reflexivity|]]].
  - intros p f Hf Ht Hk Hn n length_bytes c.
    rewrite (pack_ok _ _ Hf Ht Hk Hn).
    subst c length_bytes n. unfold covered, length_field, le16.
    cbn [app]. rewrite <- app_assoc. reflexivity.
  - cbv zeta. split; vm_compute; reflexivity.
Qed.

Lemma pack_wire_layout_witness :
  Packet.pack scenario_packet =
  Ok [xa5; x5a; x00; x01; x02; x05; x00; x21; xe7].
Proof.
  refine (proj1 pack_wire_layout scenario_packet short_format _ _ _ _).
  - reflexivity.
  - unfold u8, scenario_packet. cbn [Packet.target]. lia.
  - unfold u8, scenario_packet. cbn [Packet.command]. lia.
  - vm_compute. discriminate.
Defined.

(** ** The checksum *)

(** C3, as stated, fails: the CRC that [pack] appends is not the CRC-16/ARC
    (reflected polynomial 0xA001) of the covered bytes.  For the scenario
    packet the code computes 0xE721 and appends 21 E7, where CRC-16/ARC with
    the same seed gives 0x6CA3. *)
Lemma crc_is_not_crc16_arc :
  Packet.crc SHORT_FORM [x00; x01; x02; x05; x00] = Ok 0xE721 /\
  SpecCRC.crc16_arc [x00; x01; x02; x05; x00] 0x0000 = 0x6CA3 /\
  Packet.pack scenario_packet <>
  Ok (le16 SHORT_FORM ++ covered struct.B scenario_packet ++
      le16 (SpecCRC.crc16_arc (covered struct.B scenario_packet) 0x0000)).
Proof.
  split; [vm_compute; reflexivity|].
  split; [vm_compute; reflexivity|].
  vm_compute. discriminate.
Qed.

(** C3, amended.  The CRC that [pack] appends, low byte first, and that the
    receiver recomputes, is the CRC-CCITT of [binascii.crc_hqx]: polynomial
    0x1021, most significant bit first, not reflected, no final
    exclusive-or (its values on the test message 123456789 are 0x31C3 from
    seed 0, and 0x29B1 from seed 0xFFFF).  It covers target byte, command
    byte, length field and payload, and starts from 0xFFFF for the long
    form 0xAA55 and from 0x0000 for the short form 0x5AA5.  A frame with
    any other value in its CRC field is reported with that value and the
    recomputed one. *)
Theorem crc_is_ccitt_over_covered (p : Packet.t) (frame : list byte) :
  Packet.pack p = Ok frame ->
  exists (c : struct.code) (seed : Z),
    (Packet.framing p = 0xAA55 /\ c = struct.H /\ seed = 0xFFFF \/
     Packet.framing p = 0x5AA5 /\ c = struct.B /\ seed = 0x0000) /\
    frame = le16 (Packet.framing p) ++ covered c p ++
            le16 (binascii.crc_hqx (covered c p) seed) /\
    (forall rx, 0 <= rx < 65536 ->
       parse init (le16 (Packet.framing p) ++ covered c p ++ le16 rx) =
       Some {| out :=
                 [if rx =? binascii.crc_hqx (covered c p) seed
                  then Yield p
                  else PrintCrcMismatch rx
                         (binascii.crc_hqx (covered c p) seed)];
               buffer := []; raised := None |}) /\
    binascii.crc_hqx check_message 0x0000 = 0x31C3 /\
    binascii.crc_hqx check_message 0xFFFF = 0x29B1.
Proof.
  intros Hp. destruct (pack_inv _ _ Hp) as (f & Hf & Ht & Hk & Hn).
  exists (len_struct f), (initial_crc_value f).
  split; [|split; [|split; [|split; vm_compute; reflexivity]]].
  - destruct (formats_inv _ _ Hf) as [[-> ->]|[-> ->]]; [left|right];
      repeat split; reflexivity.
  - pose proof (pack_ok _ _ Hf Ht Hk Hn). congruence.
  - intros rx Hrx.
    set (hdr := [z2b (Packet.target p); z2b (Packet.command p)] ++
                length_field (len_struct f) (len (Packet.data p))).
    assert (Ecov : covered (len_struct f) p = hdr ++ Packet.data p)
      by reflexivity.
    rewrite Ecov, <- app_assoc.
    rewrite (parse_one_frame _ hdr _ _ (Packet.framing p) f
               (Packet.target p) (Packet.command p) rx
               (unpack_H_le16 _ (formats_range _ _ Hf)) Hf
               (header_of_covered _ _ Ht Hk Hn)
               (unpack_H_le16 _ Hrx)).
    destruct (rx =? binascii.crc_hqx (hdr ++ Packet.data p)
                      (initial_crc_value f)); cbn [negb];
      [destruct p|]; reflexivity.
Qed.

Lemma crc_is_ccitt_over_covered_witness :
  exists (c : struct.code) (seed : Z),
    (Packet.framing scenario_packet = 0xAA55 /\ c = struct.H /\
     seed = 0xFFFF \/
     Packet.framing scenario_packet = 0x5AA5 /\ c = struct.B /\
     seed = 0x0000) /\
    [xa5; x5a; x00; x01; x02; x05; x00; x21; xe7] =
      le16 (Packet.framing scenario_packet) ++ covered c scenario_packet ++
      le16 (binascii.crc_hqx (covered c scenario_packet) seed) /\
    (forall rx, 0 <= rx < 65536 ->
       parse init (le16 (Packet.framing scenario_packet) ++
                   covered c scenario_packet ++ le16 rx) =
       Some {| out :=
                 [if rx =? binascii.crc_hqx (covered c scenario_packet) seed
                  then Yield scenario_packet
                  else PrintCrcMismatch rx
                         (binascii.crc_hqx (covered c scenario_packet)
                            seed)];
               buffer := []; raised := None |}) /\
    binascii.crc_hqx check_message 0x0000 = 0x31C3 /\
    binascii.crc_hqx check_message 0xFFFF = 0x29B1.
Proof.
  apply (crc_is_ccitt_over_covered scenario_packet
           [xa5; x5a; x00; x01; x02; x05; x00; x21; xe7]).
  vm_compute. reflexivity.
Defined.

(** ** Payloads too long for the length field *)

(** C8, as stated, fails: packing a short-form packet with a payload of 256
    bytes does fail; [struct.pack] refuses the length and raises. *)
Lemma pack_too_long_raises :
  Packet.pack {| Packet.command := 0x01; Packet.framing := SHORT_FORM;
                 Packet.target := 0x00; Packet.data := repeat x00 256 |}
  = Err StructError.
Proof. vm_compute. reflexivity. Qed.

(** C8, amended.  When the payload of a packet with a recognized framing is
    longer than the length field of that framing can tell (255 for the short
    form, 65535 for the long form), [pack] raises the error of
    [struct.pack]; no bytes are produced and nothing is truncated. *)
Theorem pack_too_long_fails (p : Packet.t) (f : format) :
  Packet.formats (Packet.framing p) = Some f ->
  length_field_max (len_struct f) < len (Packet.data p) ->
  Packet.pack p = Err StructError /\
  (Packet.framing p = SHORT_FORM -> length_field_max (len_struct f) = 255) /\
  (Packet.framing p = LONG_FORM -> length_field_max (len_struct f) = 65535).
Proof.
  intros Hf Hn. split.
  - unfold Packet.pack, struct.pack_BB.
    destruct (struct.pack_int struct.B (Packet.target p)) as [x|e] eqn:Ex.
    2:{ destruct (Z_lt_dec (Packet.target p) 0) as [Hlt|Hge].
        - unfold struct.pack_int in Ex.
          rewrite (proj2 (Z.leb_gt _ _) Hlt) in Ex. cbn [andb] in Ex.
          cbn [bind]. congruence.
        - destruct (Z_le_dec 256 (Packet.target p)) as [Hbig|Hsmall].
          + rewrite (pack_int_fails struct.B) in Ex by assumption.
            cbn [bind]. congruence.
          + rewrite (pack_int_ok struct.B) in Ex
              by (change (256 ^ struct.size struct.B) with 256; lia).
            discriminate. }
    cbn [bind].
    destruct (struct.pack_int struct.B (Packet.command p)) as [y|e] eqn:Ey.
    2:{ destruct (Z_lt_dec (Packet.command p) 0) as [Hlt|Hge].
        - unfold struct.pack_int in Ey.
          rewrite (proj2 (Z.leb_gt _ _) Hlt) in Ey. cbn [andb] in Ey.
          cbn [bind]. congruence.
        - destruct (Z_le_dec 256 (Packet.command p)) as [Hbig|Hsmall].
          + rewrite (pack_int_fails struct.B) in Ey by assumption.
            cbn [bind]. congruence.
          + rewrite (pack_int_ok struct.B) in Ey
              by (change (256 ^ struct.size struct.B) with 256; lia).
            discriminate. }
    cbn [bind]. unfold Packet.formats_get. rewrite Hf. cbn [bind].
    rewrite pack_int_fails by (rewrite length_field_max_pow; lia).
    reflexivity.
  - destruct (formats_inv _ _ Hf) as [[E ->]|[E ->]]; rewrite E;
      split; intros X; try reflexivity; discriminate X.
Qed.

Lemma pack_too_long_fails_witness :
  Packet.pack {| Packet.command := 0x0d; Packet.framing := SHORT_FORM;
                 Packet.target := 0x01; Packet.data := repeat xff 300 |}
  = Err StructError.
Proof.
  refine (proj1 (pack_too_long_fails
                   {| Packet.command := 0x0d; Packet.framing := SHORT_FORM;
                      Packet.target := 0x01; Packet.data := repeat xff 300 |}
                   short_format _ _)).
  - reflexivity.
  - vm_compute. reflexivity.
Defined.

(** ** Shared facts about runs *)

Lemma option_map_emit_none (x : option run) : option_map (emit None) x = x.
Proof. destruct x; reflexivity. Qed.

Lemma loop_unfold (fuel : nat) (buf : list byte) :
  loop (S fuel) buf =
  match body buf with
  | Break => Some {| out := []; buffer := buf; raised := None |}
  | Raise e b => Some {| out := []; buffer := b; raised := Some e |}
  | Continue o b => option_map (emit o) (loop fuel b)
  end.
Proof. reflexivity. Qed.

(** A pass that goes round again has cut a non-empty prefix off the
    buffer. *)
Lemma body_suffix (buf : list byte) (o : option event) (b : list byte) :
  body buf = Continue o b -> exists pre, buf = pre ++ b /\ pre <> [].
Proof.
  intros E. pose proof (body_pass buf) as P. rewrite E in P.
  inversion P; subst.
  - exists [lo]. split; [reflexivity | discriminate].
  - exists (m ++ hdr ++ d ++ c). split.
    + rewrite <- !app_assoc. reflexivity.
    + match goal with
      | H : struct.unpack_H m = Ok _ |- _ =>
          destruct (unpack_H_length _ _ H) as [Lm _]
      end.
      destruct m; [vm_compute in Lm; discriminate Lm | discriminate].
  - exists (m ++ hdr ++ d ++ c). split.
    + rewrite <- !app_assoc. reflexivity.
    + match goal with
      | H : struct.unpack_H m = Ok _ |- _ =>
          destruct (unpack_H_length _ _ H) as [Lm _]
      end.
      destruct m; [vm_compute in Lm; discriminate Lm | discriminate].
Qed.

(** What a run leaves in the buffer is the end of what it was given. *)
Lemma loop_suffix (fuel : nat) (buf : list byte) (r : run) :
  loop fuel buf = Some r -> exists consumed, buf = consumed ++ buffer r.
Proof.
  revert buf r. induction fuel as [|fuel IH]; intros buf r; [discriminate|].
  cbn [loop]. destruct (body buf) as [|o b|e b] eqn:E.
  - intros X. injection X as <-. exists []. reflexivity.
  - destruct (loop fuel b) as [r0|] eqn:E0; [|discriminate].
    intros X. injection X as <-. rewrite buffer_emit.
    destruct (IH _ _ E0) as (c0 & Hc0).
    destruct (body_suffix _ _ _ E) as (pre & -> & _).
    exists (pre ++ c0). rewrite <- app_assoc, <- Hc0. reflexivity.
  - exfalso. exact (body_never_raises _ _ _ E).
Qed.

Lemma insufficient_break (buf : list byte) :
  insufficient buf -> body buf = Break.
Proof.
  intros (framing & f & Hm & Hf & H). cbv zeta in H.
  unfold body. destruct (len buf <? 2); [reflexivity|].
  rewrite Hm, Hf. cbv beta iota zeta.
  destruct H as [H|(t & k & n & Hh & H)].
  - rewrite ltb_true by assumption. reflexivity.
  - destruct (len buf <? struct.calcsize_header (len_struct f) + 4);
      [reflexivity|].
    rewrite Hh. cbv beta iota zeta. rewrite ltb_true by assumption.
    reflexivity.
Qed.

Lemma break_inv (buf : list byte) :
  body buf = Break -> len buf < 2 \/ insufficient buf.
Proof.
  intros E. pose proof (body_pass buf) as P. rewrite E in P.
  inversion P; subst.
  - left. assumption.
  - right. exists framing, f.
    match goal with
    | Hm : struct.unpack_H m = Ok framing |- _ =>
        destruct (unpack_H_length _ _ Hm) as [Lm _]
    end.
    rewrite slice_head by lia. repeat split; try assumption.
    cbv zeta. left. rewrite len_app. lia.
  - right. exists framing, f.
    match goal with
    | Hm : struct.unpack_H m = Ok framing |- _ =>
        destruct (unpack_H_length _ _ Hm) as [Lm _]
    end.
    match goal with
    | Hh : struct.unpack_header _ hdr = Ok _ |- _ =>
        destruct (unpack_header_length _ _ _ _ _ Hh) as (Lh & _)
    end.
    rewrite slice_head by lia. repeat split; try assumption.
    cbv zeta. right. exists t, k, n.
    rewrite (slice_app _ _ m hdr tail) by lia.
    split; [assumption | rewrite !len_app; lia].
Qed.

(** A run over a buffered candidate frame with a wrong CRC: the frame is
    reported, then the run goes on with what follows. *)
Lemma parse_mismatch (m hdr d c rest : list byte) (framing : Z) (f : format)
      (t k rx : Z) :
  struct.unpack_H m = Ok framing ->
  Packet.formats framing = Some f ->
  struct.unpack_header (len_struct f) hdr = Ok (t, k, len d) ->
  struct.unpack_H c = Ok rx ->
  rx <> binascii.crc_hqx (hdr ++ d) (initial_crc_value f) ->
  exists r,
    parse init rest = Some r /\ raised r = None /\
    forall self_buffer data,
      self_buffer ++ data = m ++ hdr ++ d ++ c ++ rest ->
      parse self_buffer data =
      Some {| out := PrintCrcMismatch rx
                       (binascii.crc_hqx (hdr ++ d) (initial_crc_value f))
                     :: out r;
              buffer := buffer r; raised := None |}.
Proof.
  intros Hm Hf Hh Hc Hne.
  destruct (parse_total init rest) as (r & Hr & Hraised).
  exists r. split; [assumption | split; [assumption|]].
  intros self_buffer data E.
  apply (parse_of_loop (S (S (length rest)))). rewrite E.
  rewrite loop_unfold, (body_frame _ _ _ _ _ _ _ _ _ _ Hm Hf Hh Hc).
  cbv zeta. rewrite (proj2 (Z.eqb_neq _ _) Hne). cbn [negb].
  unfold parse in Hr. cbn [init app] in Hr. rewrite Hr.
  cbn [option_map emit]. rewrite Hraised. reflexivity.
Qed.

(** ** CRC mismatch *)

(** C4. When a whole candidate frame is buffered (a recognized marker [m],
    a full header [hdr], the payload [d] of the declared length and two
    trailing bytes [c]) and the CRC recomputed over header and payload is
    not the one in the trailing bytes, the pass removes exactly the
    [2 + header_len + data_len + 2] bytes of the frame from the front of
    the buffer, yields no packet, prints the received and the expected CRC,
    raises nothing, and the run goes on with the bytes that follow. *)
Theorem crc_mismatch_drops_frame (m hdr d c rest : list byte) (framing : Z)
        (f : format) (t k rx : Z) :
  struct.unpack_H m = Ok framing ->
  Packet.formats framing = Some f ->
  struct.unpack_header (len_struct f) hdr = Ok (t, k, len d) ->
  struct.unpack_H c = Ok rx ->
  rx <> binascii.crc_hqx (hdr ++ d) (initial_crc_value f) ->
  let buf := m ++ hdr ++ d ++ c ++ rest in
  let header_len := struct.calcsize_header (len_struct f) in
  let calc_crc := binascii.crc_hqx (hdr ++ d) (initial_crc_value f) in
  Packet.crc framing (hdr ++ d) = Ok calc_crc /\
  body buf =
    Continue (Some (PrintCrcMismatch rx calc_crc))
      (drop (2 + header_len + len d + 2) buf) /\
  drop (2 + header_len + len d + 2) buf = rest /\
  len buf - len rest = 2 + header_len + len d + 2 /\
  exists r,
    parse init rest = Some r /\ raised r = None /\
    forall self_buffer data,
      self_buffer ++ data = buf ->
      parse self_buffer data =
      Some {| out := PrintCrcMismatch rx calc_crc :: out r;
              buffer := buffer r; raised := None |}.
Proof.
  intros Hm Hf Hh Hc Hne buf header_len calc_crc.
  destruct (unpack_H_length _ _ Hm) as [Lm _].
  destruct (unpack_header_length _ _ _ _ _ Hh) as (Lh & _).
  destruct (unpack_H_length _ _ Hc) as [Lc _].
  assert (Ed : drop (2 + header_len + len d + 2) buf = rest).
  { subst buf.
    replace (m ++ hdr ++ d ++ c ++ rest) with ((m ++ hdr ++ d ++ c) ++ rest)
      by (rewrite <- !app_assoc; reflexivity).
    apply drop_app. rewrite !len_app. subst header_len. lia. }
  split; [exact (crc_recognized _ _ _ Hf)|].
  split.
  { rewrite Ed. subst buf.
    rewrite (body_frame _ _ _ _ _ _ _ _ _ _ Hm Hf Hh Hc). cbv zeta.
    rewrite (proj2 (Z.eqb_neq _ _) Hne). reflexivity. }
  split; [exact Ed|].
  split; [subst buf header_len; rewrite !len_app; lia|].
  exact (parse_mismatch _ _ _ _ _ _ _ _ _ _ Hm Hf Hh Hc Hne).
Qed.

Lemma crc_mismatch_drops_frame_witness :
  parse init ([xa5; x5a] ++ [x00; x01; x02] ++ [x05; x00] ++ [x21; xe6] ++
              [xa5; x5a; x00; x01; x02; x05; x00; x21; xe7]) =
  Some {| out := [PrintCrcMismatch 0xE621 0xE721; Yield scenario_packet];
          buffer := []; raised := None |}.
Proof.
  destruct (crc_mismatch_drops_frame
              [xa5; x5a] [x00; x01; x02] [x05; x00] [x21; xe6]
              [xa5; x5a; x00; x01; x02; x05; x00; x21; xe7]
              SHORT_FORM short_format 0 1 0xE621
              eq_refl eq_refl eq_refl eq_refl)
    as (_ & _ & _ & _ & r & Hr & _ & H).
  - vm_compute. discriminate.
  - rewrite (H init _ eq_refl). vm_compute in Hr.
    injection Hr as <-. reflexivity.
Defined.

(** ** Resynchronization *)

Lemma recognized_cons (i : nat) (b : byte) (s : list byte) :
  recognized (S i) (b :: s) = recognized i s.
Proof. reflexivity. Qed.

Lemma recognized_front (s : list byte) :
  recognized 0 s = true ->
  exists framing f,
    struct.unpack_H (slice 0 2 s) = Ok framing /\
    Packet.formats framing = Some f.
Proof.
  unfold recognized, marker_at. cbn [skipn].
  destruct s as [|lo [|hi rest]]; try discriminate.
  destruct (Packet.formats (b2z lo + 256 * b2z hi)) as [f|] eqn:Hf;
    [|discriminate].
  intros _. exists (b2z lo + 256 * b2z hi), f.
  change (lo :: hi :: rest) with ([lo; hi] ++ rest).
  rewrite slice_head by reflexivity. split; [reflexivity | assumption].
Qed.

Lemma body_unrecognized (buf : list byte) :
  2 <= len buf -> recognized 0 buf = false ->
  body buf = Continue None (drop 1 buf).
Proof.
  intros Hlen Hr. destruct buf as [|lo [|hi rest]];
    try (vm_compute in Hlen; exfalso; apply Hlen; reflexivity).
  unfold recognized, marker_at in Hr. cbn [skipn] in Hr.
  destruct (Packet.formats (b2z lo + 256 * b2z hi)) eqn:Hf;
    [discriminate|].
  apply body_skip. assumption.
Qed.

(** While no recognized marker has been met, each pass drops one byte: the
    first [k] passes lead from [s] to [skipn k s] and emit nothing. *)
Lemma loop_skips (k : nat) (s : list byte) :
  (forall i, (i < k)%nat -> recognized i s = false) ->
  recognized k s = true ->
  forall fuel, loop (k + fuel) s = loop fuel (skipn k s).
Proof.
  revert s. induction k as [|k IH]; intros s Hno Hyes fuel; [reflexivity|].
  assert (H0 : recognized 0 s = false) by (apply Hno; lia).
  destruct s as [|lo [|hi rest]];
    try (unfold recognized, marker_at in Hyes;
         destruct k; discriminate Hyes).
  cbn [Nat.add]. rewrite loop_unfold.
  rewrite body_unrecognized; [|unfold len; cbn [length]; lia | assumption].
  rewrite option_map_emit_none.
  change (drop 1 (lo :: hi :: rest)) with (hi :: rest).
  change (skipn (S k) (lo :: hi :: rest)) with (skipn k (hi :: rest)).
  apply IH.
  - intros i Hi. rewrite <- (recognized_cons i lo). apply Hno. lia.
  - rewrite <- (recognized_cons k lo). assumption.
Qed.

(** C5. When the buffer has at least two bytes and its first two bytes, read
    as a little-endian 16-bit value, are not a key of [formats], the pass
    drops exactly one byte and goes round again.  Hence a marker at any
    offset [k] of a stream, when no recognized marker starts before it, is
    reached after [k] such passes, none of which emits anything, and is then
    read and found in [formats] as the start of a candidate frame. *)
Theorem resync_drops_one_byte :
  (forall buf : list byte,
      2 <= len buf -> recognized 0 buf = false ->
      body buf = Continue None (drop 1 buf) /\
      len (drop 1 buf) = len buf - 1 /\
      forall fuel, loop (S fuel) buf = loop fuel (drop 1 buf)) /\
  (forall (s : list byte) (k : nat),
      (forall i, (i < k)%nat -> recognized i s = false) ->
      recognized k s = true ->
      (forall fuel, loop (k + fuel) s = loop fuel (skipn k s)) /\
      parse init s = parse init (skipn k s) /\
      exists framing f,
        struct.unpack_H (slice 0 2 (skipn k s)) = Ok framing /\
        Packet.formats framing = Some f).
Proof.
  split.
  - intros buf Hlen Hr. pose proof (body_unrecognized _ Hlen Hr) as E.
    split; [exact E|]. split.
    + destruct buf as [|b buf]; [vm_compute in Hlen; contradiction|].
      change (drop 1 (b :: buf)) with buf.
      change (b :: buf) with ([b] ++ buf). rewrite len_app.
      change (len [b]) with 1. lia.
    + intros fuel. rewrite loop_unfold, E. apply option_map_emit_none.
  - intros s k Hno Hyes. split; [|split].
    + exact (loop_skips k s Hno Hyes).
    + destruct (parse_total init (skipn k s)) as (r & Hr & _).
      rewrite Hr. unfold parse in Hr. cbn [init app] in Hr.
      rewrite <- (loop_skips k s Hno Hyes) in Hr.
      exact (parse_of_loop _ init s r Hr).
    + apply recognized_front. unfold recognized, marker_at in *.
      rewrite skipn_skipn. cbn [Nat.add]. exact Hyes.
Qed.

Lemma resync_drops_one_byte_witness :
  parse init ([x01; xa5; x02] ++ [xa5; x5a; x00; x01; x02; x05; x00; x21; xe7])
  = parse init [xa5; x5a; x00; x01; x02; x05; x00; x21; xe7].
Proof.
  refine (proj1 (proj2 (proj2 resync_drops_one_byte
                          ([x01; xa5; x02] ++
                           [xa5; x5a; x00; x01; x02; x05; x00; x21; xe7])
                          3%nat _ _))).
  - intros i Hi.
    destruct i as [|[|[|i]]]; [reflexivity | reflexivity | reflexivity | lia].
  - reflexivity.
Defined.

(** ** Fragmentation *)

(** C6. However the bytes of a packed frame are cut into consecutive chunks,
    feeding the chunks one by one to one new receiver gives in total what
    feeding the whole frame in one call gives: the packet, once. *)
Theorem fragmentation_invariance (p : Packet.t) (frame : list byte)
        (chunks : list (list byte)) :
  Packet.pack p = Ok frame ->
  concat chunks = frame ->
  feed init chunks = parse init frame /\
  feed init chunks =
    Some {| out := [Yield p]; buffer := []; raised := None |}.
Proof.
  intros Hp Hc.
  assert (E : feed init chunks = parse init frame).
  { rewrite <- Hc. apply feed_concat. apply body_short.
    vm_compute. reflexivity. }
  split; [exact E|]. rewrite E. apply parse_pack. assumption.
Qed.

Lemma fragmentation_invariance_witness :
  feed init [[xa5]; [x5a; x00; x01]; []; [x02; x05; x00; x21]; [xe7]] =
  Some {| out := [Yield scenario_packet]; buffer := []; raised := None |}.
Proof.
  refine (proj2 (fragmentation_invariance scenario_packet
                   [xa5; x5a; x00; x01; x02; x05; x00; x21; xe7]
                   [[xa5]; [x5a; x00; x01]; []; [x02; x05; x00; x21]; [xe7]]
                   _ _)).
  - vm_compute. reflexivity.
  - reflexivity.
Defined.

(** ** Insufficient data *)

(** C7. When a run stops because the buffer, with a recognized marker at its
    front, has fewer bytes than the candidate frame needs (fewer than
    [header_len + 4], or fewer than [header_len + data_len + 4]), nothing is
    consumed: the buffer is left as it was, marker and examined bytes
    included.  Across calls no byte is lost or duplicated: what a run leaves
    is the end of what it was given, and a call followed by a second call
    gives what one call on all the bytes gives. *)
Theorem insufficient_data_consumes_nothing :
  (forall self_buffer data : list byte,
      insufficient (self_buffer ++ data) ->
      body (self_buffer ++ data) = Break /\
      parse self_buffer data =
      Some {| out := []; buffer := self_buffer ++ data; raised := None |}) /\
  (forall (self_buffer data : list byte) (r : run),
      parse self_buffer data = Some r ->
      exists consumed, self_buffer ++ data = consumed ++ buffer r) /\
  (forall (self_buffer d1 d2 : list byte) (r1 r2 : run),
      parse self_buffer d1 = Some r1 ->
      parse (buffer r1) d2 = Some r2 ->
      parse self_buffer (d1 ++ d2) =
      Some {| out := out r1 ++ out r2; buffer := buffer r2;
              raised := raised r2 |}).
Proof.
  split; [|split].
  - intros self_buffer data H. pose proof (insufficient_break _ H) as E.
    split; [exact E|]. apply (parse_of_loop 1).
    rewrite loop_unfold, E. reflexivity.
  - intros self_buffer data r H. unfold parse in H.
    exact (loop_suffix _ _ _ H).
  - intros self_buffer d1 d2 r1 r2 H1 H2.
    exact (parse_app _ _ _ _ _ H1 H2).
Qed.

Lemma insufficient_data_consumes_nothing_witness :
  parse [xa5; x5a; x00] [x01; x02; x05] =
  Some {| out := []; buffer := [xa5; x5a; x00; x01; x02; x05];
          raised := None |}.
Proof.
  refine (proj2 (proj1 insufficient_data_consumes_nothing
                   [xa5; x5a; x00] [x01; x02; x05] _)).
  exists SHORT_FORM, short_format.
  split; [reflexivity|]. split; [reflexivity|].
  right. exists 0, 1, 2. split; [reflexivity|].
  vm_compute. reflexivity.
Defined.

(** ** Termination *)

(** C10. Every pass of the loop of [parse] either leaves the loop (the buffer
    has fewer than 2 bytes, or too few for the candidate frame at its front)
    or goes round again with a strictly shorter buffer, and none raises.  So
    the loop ends within [length buffer + 1] passes, whatever the buffer,
    and every call of [parse] returns. *)
Theorem parse_terminates :
  (forall buf : list byte,
      match body buf with
      | Break => len buf < 2 \/ insufficient buf
      | Continue _ b => (length b < length buf)%nat
      | Raise _ _ => False
      end) /\
  (forall (fuel : nat) (buf : list byte),
      (length buf < fuel)%nat ->
      exists r, loop fuel buf = Some r /\ raised r = None) /\
  (forall self_buffer data : list byte,
      exists r, parse self_buffer data = Some r /\ raised r = None).
Proof.
  split; [|split].
  - intros buf. destruct (body buf) as [|o b|e b] eqn:E.
    + apply break_inv. assumption.
    + eapply body_decreases. eassumption.
    + exact (body_never_raises _ _ _ E).
  - exact loop_enough.
  - exact parse_total.
Qed.

Lemma parse_terminates_witness :
  exists r, loop 4 [x00; xa5; x5a] = Some r /\ raised r = None.
Proof.
  refine (proj1 (proj2 parse_terminates) 4%nat [x00; xa5; x5a] _).
  cbn [length]. lia.
Defined.

(** ** Tampering *)

Lemma flip_bit_at (k : Z) (xs ys : list byte) (b : byte) :
  flip_bit (length xs) k (xs ++ b :: ys) = xs ++ flip_bit_byte k b :: ys.
Proof.
  unfold flip_bit.
  rewrite firstn_app, firstn_all, Nat.sub_diag, skipn_app, skipn_all,
    Nat.sub_diag.
  cbn [firstn skipn app]. rewrite app_nil_r. reflexivity.
Qed.

Lemma split_nth {A} (j : nat) (l : list A) :
  (j < length l)%nat ->
  exists pre b post, l = pre ++ b :: post /\ length pre = j.
Proof.
  intros Hj. exists (firstn j l).
  destruct (skipn j l) as [|b post] eqn:E.
  - pose proof (length_skipn j l) as L. rewrite E in L. cbn [length] in L. lia.
  - exists b, post. split.
    + rewrite <- E. symmetry. apply firstn_skipn.
    + apply firstn_length_le. lia.
Qed.

Lemma unpack_header_other_address (c : struct.code) (tb kb tb' kb' : byte)
      (lf : list byte) (t k n : Z) :
  struct.unpack_header c (tb :: kb :: lf) = Ok (t, k, n) ->
  struct.unpack_header c (tb' :: kb' :: lf) = Ok (b2z tb', b2z kb', n).
Proof.
  destruct c; destruct lf as [|l0 [|l1 [|l2 lf]]];
    cbn [struct.unpack_header]; try discriminate;
    intros X; injection X as _ _ <-; reflexivity.
Qed.

(** A frame whose marker and CRC field are those of a packed packet, but
    whose covered bytes have another CRC, is reported, and the run goes on
    with what follows. *)
Lemma tampered_run (fr : Z) (f : format) (hdr' d' rest : list byte)
      (t' k' c0 : Z) :
  Packet.formats fr = Some f ->
  struct.unpack_header (len_struct f) hdr' = Ok (t', k', len d') ->
  0 <= c0 < 65536 ->
  c0 <> binascii.crc_hqx (hdr' ++ d') (initial_crc_value f) ->
  exists calc r,
    calc <> c0 /\
    parse init rest = Some r /\
    parse init ((le16 fr ++ hdr' ++ d' ++ le16 c0) ++ rest) =
    Some {| out := PrintCrcMismatch c0 calc :: out r;
            buffer := buffer r; raised := None |}.
Proof.
  intros Hf Hh Hc Hne.
  destruct (parse_mismatch (le16 fr) hdr' d' (le16 c0) rest fr f t' k' c0
              (unpack_H_le16 _ (formats_range _ _ Hf)) Hf Hh
              (unpack_H_le16 _ Hc) Hne) as (r & Hr & _ & H).
  exists (binascii.crc_hqx (hdr' ++ d') (initial_crc_value f)), r.
  split; [congruence|]. split; [assumption|].
  apply H. cbn [init app]. rewrite <- !app_assoc. reflexivity.
Qed.

(** C9, as stated, fails for the length field.  Flipping the low bit of the
    length byte of the scenario frame (02 becomes 03) makes the receiver
    wait for one more byte: nothing is dropped and nothing is printed.  And
    when a valid frame follows, its first byte is taken into the candidate
    frame, so the valid frame is not decoded. *)
Lemma length_flip_not_detected :
  Packet.pack scenario_packet =
    Ok [xa5; x5a; x00; x01; x02; x05; x00; x21; xe7] /\
  flip_bit 4 0 [xa5; x5a; x00; x01; x02; x05; x00; x21; xe7] =
    [xa5; x5a; x00; x01; x03; x05; x00; x21; xe7] /\
  parse init [xa5; x5a; x00; x01; x03; x05; x00; x21; xe7] =
    Some {| out := [];
            buffer := [xa5; x5a; x00; x01; x03; x05; x00; x21; xe7];
            raised := None |} /\
  parse init ([xa5; x5a; x00; x01; x03; x05; x00; x21; xe7] ++
              [xa5; x5a; x00; x01; x02; x05; x00; x21; xe7]) =
    Some {| out := [PrintCrcMismatch 0xA5E7 0xEE3E];
            buffer := [xe7]; raised := None |}.
Proof.
  repeat split; vm_compute; reflexivity.
Qed.

(** C9, amended.  Flipping any single bit of the target byte, of the command
    byte or of a payload byte of a packed frame (not of the marker, and not
    of the length field) makes a new receiver drop the frame with a CRC
    diagnostic that carries the CRC of the frame and a different recomputed
    one, instead of yielding a packet; the bytes that follow are decoded as
    they are on their own, so a valid frame that follows is yielded. *)
Theorem tampered_frame_dropped (p : Packet.t) (frame rest : list byte)
        (f : format) (i : nat) (k : Z) :
  Packet.pack p = Ok frame ->
  Packet.formats (Packet.framing p) = Some f ->
  0 <= k < 8 ->
  target_command_or_payload (len_struct f) p i ->
  let c0 :=
    binascii.crc_hqx (covered (len_struct f) p) (initial_crc_value f) in
  exists calc r,
    calc <> c0 /\
    parse init rest = Some r /\
    parse init (flip_bit i k frame ++ rest) =
      Some {| out := PrintCrcMismatch c0 calc :: out r;
              buffer := buffer r; raised := None |} /\
    (forall p2, Packet.pack p2 = Ok rest -> out r = [Yield p2]).
Proof.
  intros Hp Hf Hk Hpos c0.
  destruct (pack_inv _ _ Hp) as (f' & Hf' & Ht & Hkk & Hn).
  assert (f' = f) by congruence. subst f'.
  assert (E : frame =
              le16 (Packet.framing p) ++ covered (len_struct f) p ++
              le16 c0)
    by (pose proof (pack_ok _ _ Hf Ht Hkk Hn); subst c0; congruence).
  pose proof (header_of_covered _ _ Ht Hkk Hn) as Hh.
  destruct (unpack_header_length _ _ _ _ _ Hh) as (Lh & _).
  pose proof (crc_hqx_range (covered (len_struct f) p)
                (initial_crc_value f)) as Hc0.
  set (tb := z2b (Packet.target p)) in *.
  set (kb := z2b (Packet.command p)) in *.
  set (lf := length_field (len_struct f) (len (Packet.data p))) in *.
  set (d := Packet.data p) in *.
  set (fr := Packet.framing p) in *.
  assert (Ecov : covered (len_struct f) p = tb :: kb :: lf ++ d)
    by reflexivity.
  assert (Hfinish :
            forall hdr' d' t' k',
              struct.unpack_header (len_struct f) hdr' = Ok (t', k', len d') ->
              c0 <> binascii.crc_hqx (hdr' ++ d') (initial_crc_value f) ->
              flip_bit i k frame = le16 fr ++ hdr' ++ d' ++ le16 c0 ->
              exists calc r,
                calc <> c0 /\
                parse init rest = Some r /\
                parse init (flip_bit i k frame ++ rest) =
                  Some {| out := PrintCrcMismatch c0 calc :: out r;
                          buffer := buffer r; raised := None |} /\
                (forall p2, Packet.pack p2 = Ok rest -> out r = [Yield p2])).
  { intros hdr' d' t' k' Hh' Hne' Eflip.
    destruct (tampered_run fr f hdr' d' rest t' k' c0 Hf Hh' Hc0 Hne')
      as (calc & r & Hcalc & Hr & Hrun).
    exists calc, r. rewrite Eflip.
    repeat split; try assumption.
    intros p2 Hp2. rewrite (parse_pack _ _ Hp2) in Hr.
    injection Hr as <-. reflexivity. }
  destruct Hpos as [->|[->|Hpay]].
  - (* the target byte *)
    apply (Hfinish (flip_bit_byte k tb :: kb :: lf) d
             (b2z (flip_bit_byte k tb)) (b2z kb)).
    + change (len d) with (len (Packet.data p)).
      exact (unpack_header_other_address _ _ _ _ _ _ _ _ _ Hh).
    + subst c0. rewrite Ecov.
      apply (crc_hqx_detects [] (kb :: lf ++ d) tb (flip_bit_byte k tb)).
      intros X. symmetry in X. exact (flip_bit_byte_neq k tb Hk X).
    + rewrite E, Ecov. unfold le16. cbn [app]. rewrite <- app_assoc.
      exact (flip_bit_at k [_; _] _ tb).
  - (* the command byte *)
    apply (Hfinish (tb :: flip_bit_byte k kb :: lf) d
             (b2z tb) (b2z (flip_bit_byte k kb))).
    + change (len d) with (len (Packet.data p)).
      exact (unpack_header_other_address _ _ _ _ _ _ _ _ _ Hh).
    + subst c0. rewrite Ecov.
      apply (crc_hqx_detects [tb] (lf ++ d) kb (flip_bit_byte k kb)).
      intros X. symmetry in X. exact (flip_bit_byte_neq k kb Hk X).
    + rewrite E, Ecov. unfold le16. cbn [app]. rewrite <- app_assoc.
      exact (flip_bit_at k [_; _; _] _ kb).
  - (* a payload byte *)
    cbv zeta in Hpay.
    assert (Lhdr : length (tb :: kb :: lf)
                   = Z.to_nat (struct.calcsize_header (len_struct f))).
    { unfold len in Lh. rewrite <- Lh. rewrite Nat2Z.id. reflexivity. }
    destruct (split_nth (i - (2 + length (tb :: kb :: lf))) d)
      as (pre & b & post & Ed & Lpre);
      [fold d in Hpay; lia|].
    apply (Hfinish (tb :: kb :: lf) (pre ++ flip_bit_byte k b :: post)
             (Packet.target p) (Packet.command p)).
    + replace (len (pre ++ flip_bit_byte k b :: post)) with (len d).
      * exact Hh.
      * rewrite Ed. unfold len. rewrite !length_app. reflexivity.
    + subst c0. rewrite Ecov, Ed.
      replace (tb :: kb :: lf ++ pre ++ b :: post)
        with (((tb :: kb :: lf) ++ pre) ++ b :: post)
        by (rewrite <- app_assoc; reflexivity).
      replace ((tb :: kb :: lf) ++ pre ++ flip_bit_byte k b :: post)
        with (((tb :: kb :: lf) ++ pre) ++ flip_bit_byte k b :: post)
        by (rewrite <- app_assoc; reflexivity).
      apply crc_hqx_detects.
      intros X. symmetry in X. exact (flip_bit_byte_neq k b Hk X).
    + rewrite E, Ecov, Ed.
      replace (le16 fr ++ (tb :: kb :: lf ++ pre ++ b :: post) ++ le16 c0)
        with ((le16 fr ++ (tb :: kb :: lf) ++ pre) ++ b :: (post ++ le16 c0))
        by (norm_app; reflexivity).
      replace i with (length (le16 fr ++ (tb :: kb :: lf) ++ pre))
        by (rewrite !length_app; unfold le16; cbn [length] in *; lia).
      rewrite flip_bit_at. norm_app. reflexivity.
Qed.

Lemma tampered_frame_dropped_witness :
  exists calc r,
    calc <> 0xE721 /\
    parse init [xa5; x5a; x03; x0b; x00; xaa; x85] = Some r /\
    parse init (flip_bit 5 7 [xa5; x5a; x00; x01; x02; x05; x00; x21; xe7] ++
                [xa5; x5a; x03; x0b; x00; xaa; x85]) =
      Some {| out := PrintCrcMismatch 0xE721 calc :: out r;
              buffer := buffer r; raised := None |} /\
    (forall p2,
        Packet.pack p2 = Ok [xa5; x5a; x03; x0b; x00; xaa; x85] ->
        out r = [Yield p2]).
Proof.
  refine (tampered_frame_dropped scenario_packet
            [xa5; x5a; x00; x01; x02; x05; x00; x21; xe7]
            [xa5; x5a; x03; x0b; x00; xaa; x85]
            short_format 5%nat 7 _ _ _ _).
  - vm_compute. reflexivity.
  - reflexivity.
  - lia.
  - right. right. vm_compute. lia.
Defined.


(** * Further properties of the code *)

(** ** [Packet.pack]: outcome, size, self-delimiting frames *)

Lemma u8b_true (n : Z) : u8b n = true -> u8 n.
Proof.
  unfold u8b, u8. intros H. apply andb_true_iff in H. destruct H as [H1 H2].
  apply Z.leb_le in H1. apply Z.leb_le in H2. lia.
Qed.

(** X1. [pack] succeeds exactly when target and command are in 0..255, the
    framing is a key of [formats] and the payload length fits the length
    field; it then returns the frame.  Otherwise it raises: the error of
    [struct.pack] for a target, command or length out of range, and
    [KeyError] for a framing that is not registered.  Packing the CRC and
    the marker never fails. *)
Theorem pack_outcome (p : Packet.t) :
  Packet.pack p =
  if negb (u8b (Packet.target p) && u8b (Packet.command p))
  then Err StructError
  else
    match Packet.formats (Packet.framing p) with
    | None => Err KeyError
    | Some f =>
        if len (Packet.data p) <=? length_field_max (len_struct f)
        then Ok (le16 (Packet.framing p) ++ covered (len_struct f) p ++
                 le16 (binascii.crc_hqx (covered (len_struct f) p)
                         (initial_crc_value f)))
        else Err StructError
    end.
Proof.
  destruct (u8b (Packet.target p)) eqn:Et.
  2:{ cbn [andb negb]. unfold Packet.pack, struct.pack_BB.
      cbn [struct.pack_int]. unfold u8b in Et. rewrite Et. reflexivity. }
  destruct (u8b (Packet.command p)) eqn:Ek.
  2:{ cbn [andb negb]. unfold Packet.pack, struct.pack_BB.
      cbn [struct.pack_int]. unfold u8b in Et, Ek. rewrite Et, Ek.
      reflexivity. }
  cbn [andb negb]. apply u8b_true in Et. apply u8b_true in Ek.
  destruct (Packet.formats (Packet.framing p)) as [f|] eqn:Hf.
  - destruct (Z.leb_spec (len (Packet.data p))
                (length_field_max (len_struct f))) as [Hn|Hn].
    + apply pack_ok; assumption.
    + unfold Packet.pack. rewrite (pack_BB_ok _ _ Et Ek). cbn [bind].
      unfold Packet.formats_get. rewrite Hf. cbn [bind].
      rewrite pack_int_fails by (rewrite length_field_max_pow; lia).
      reflexivity.
  - unfold Packet.pack. rewrite (pack_BB_ok _ _ Et Ek). cbn [bind].
    unfold Packet.formats_get. rewrite Hf. reflexivity.
Qed.

(** X2. Packed frames are self-delimiting: when the frame of one packet is
    the beginning of the frame of another, the two packets are the same and
    nothing follows.  In particular [pack] is injective. *)
Theorem packed_frames_self_delimiting (p q : Packet.t)
        (frame rest : list byte) :
  Packet.pack p = Ok frame ->
  Packet.pack q = Ok (frame ++ rest) ->
  p = q /\ rest = [].
Proof.
  intros Hp Hq.
  pose proof (parse_pack _ _ Hp) as Rp.
  pose proof (parse_pack _ _ Hq) as Rq.
  destruct (parse_total [] rest) as (r2 & Hr2 & _).
  pose proof (parse_app init frame rest _ _ Rp Hr2) as Rpq.
  rewrite Rq in Rpq. unfold then_run in Rpq.
  cbn [out buffer raised app] in Rpq.
  assert (Epq : p = q) by congruence.
  split; [exact Epq|].
  subst q. rewrite Hp in Hq. injection Hq as E.
  apply (app_inv_head frame). rewrite app_nil_r. symmetry. exact E.
Qed.

Lemma packed_frames_self_delimiting_witness :
  scenario_packet = scenario_packet /\ @nil byte = [].
Proof.
  apply (packed_frames_self_delimiting scenario_packet scenario_packet
           [xa5; x5a; x00; x01; x02; x05; x00; x21; xe7] []).
  - vm_compute. reflexivity.
  - vm_compute. reflexivity.
Defined.

(** X3. A packed frame has [2 + header_len + len(data) + 2] bytes: the
    payload and 7 more bytes in the short form, 8 more in the long form;
    never fewer than 7 and never more than 65543. *)
Theorem pack_length (p : Packet.t) (frame : list byte) :
  Packet.pack p = Ok frame ->
  (Packet.framing p = SHORT_FORM /\ len frame = len (Packet.data p) + 7 \/
   Packet.framing p = LONG_FORM /\ len frame = len (Packet.data p) + 8) /\
  7 <= len frame <= 65543.
Proof.
  intros Hp. destruct (pack_inv _ _ Hp) as (f & Hf & Ht & Hk & Hn).
  assert (E : frame =
              le16 (Packet.framing p) ++ covered (len_struct f) p ++
              le16 (binascii.crc_hqx (covered (len_struct f) p)
                      (initial_crc_value f)))
    by (pose proof (pack_ok _ _ Hf Ht Hk Hn); congruence).
  pose proof (len_nonneg (Packet.data p)) as Hd.
  assert (L : len frame
              = 2 + (2 + struct.size (len_struct f)) + len (Packet.data p)
                + 2).
  { rewrite E. unfold covered. rewrite !len_app.
    unfold le16, length_field.
    destruct (len_struct f); unfold len; cbn [length struct.size]; lia. }
  destruct (formats_inv _ _ Hf) as [[Efr ->]|[Efr ->]];
    cbn [len_struct struct.size length_field_max] in *.
  - split; [right; split; [exact Efr | lia] | lia].
  - split; [left; split; [exact Efr | lia] | lia].
Qed.

Lemma pack_length_witness :
  (Packet.framing scenario_packet = SHORT_FORM /\
   len [xa5; x5a; x00; x01; x02; x05; x00; x21; xe7]
   = len (Packet.data scenario_packet) + 7 \/
   Packet.framing scenario_packet = LONG_FORM /\
   len [xa5; x5a; x00; x01; x02; x05; x00; x21; xe7]
   = len (Packet.data scenario_packet) + 8) /\
  7 <= len [xa5; x5a; x00; x01; x02; x05; x00; x21; xe7] <= 65543.
Proof.
  apply (pack_length scenario_packet). vm_compute. reflexivity.
Defined.

(** ** [Packet.crc] *)

(** X4. For a registered framing, [Packet.crc] returns a value in 0..65535,
    and two byte strings that differ in exactly one byte never get the same
    CRC. *)
Theorem crc_detects_changed_byte (framing : Z) (f : format)
        (pre post : list byte) (a b : byte) :
  Packet.formats framing = Some f ->
  a <> b ->
  exists c1 c2,
    Packet.crc framing (pre ++ a :: post) = Ok c1 /\
    Packet.crc framing (pre ++ b :: post) = Ok c2 /\
    c1 <> c2 /\ 0 <= c1 < 65536 /\ 0 <= c2 < 65536.
Proof.
  intros Hf Hab. eexists. eexists.
  split; [exact (crc_recognized _ _ _ Hf)|].
  split; [exact (crc_recognized _ _ _ Hf)|].
  split; [apply crc_hqx_detects; assumption|].
  split; apply crc_hqx_range.
Qed.

Lemma crc_detects_changed_byte_witness :
  exists c1 c2,
    Packet.crc LONG_FORM ([x00; x01] ++ x02 :: [x05]) = Ok c1 /\
    Packet.crc LONG_FORM ([x00; x01] ++ x03 :: [x05]) = Ok c2 /\
    c1 <> c2 /\ 0 <= c1 < 65536 /\ 0 <= c2 < 65536.
Proof.
  apply (crc_detects_changed_byte LONG_FORM long_format).
  - reflexivity.
  - discriminate.
Defined.

(** ** [PacketReceiver.parse]: what a run yields *)

Lemma header_canonical (c : struct.code) (hdr : list byte) (t k n : Z) :
  struct.unpack_header c hdr = Ok (t, k, n) ->
  hdr = [z2b t; z2b k] ++ length_field c n.
Proof.
  destruct c; cbn [struct.unpack_header length_field app].
  - destruct hdr as [|b0 [|b1 [|b2 [|b3 hdr]]]]; try discriminate.
    intros X. injection X as <- <- <-. rewrite !z2b_b2z. reflexivity.
  - destruct hdr as [|b0 [|b1 [|b2 [|b3 [|b4 hdr]]]]]; try discriminate.
    intros X. injection X as <- <- <-. rewrite !z2b_b2z.
    pose proof (le16_unpack_H [b2; b3] _ eq_refl) as E.
    unfold le16 in E. injection E as E2 E3.
    rewrite <- E2, <- E3. reflexivity.
Qed.

(** A yielding pass has consumed exactly the frame of the packet it
    yields. *)
Lemma yield_canonical (buf : list byte) (p : Packet.t) (b : list byte) :
  body buf = Continue (Some (Yield p)) b ->
  Packet.pack p = Ok (firstn (length buf - length b) buf) /\
  buf = firstn (length buf - length b) buf ++ b.
Proof.
  intros E. pose proof (body_pass buf) as P. rewrite E in P.
  inversion P; subst.
  match goal with
  | Hm : struct.unpack_H m = Ok framing,
    Hf : Packet.formats framing = Some f,
    Hh : struct.unpack_header _ hdr = Ok _,
    Hc : struct.unpack_H c = Ok _ |- _ =>
      pose proof (le16_unpack_H _ _ Hm) as Em;
      pose proof (le16_unpack_H _ _ Hc) as Ec;
      pose proof (header_canonical _ _ _ _ _ Hh) as Eh;
      destruct (unpack_header_length _ _ _ _ _ Hh) as (_ & Ht & Hk & Hn);
      rename Hf into Hfmt
  end.
  assert (Efirst : firstn (length (m ++ hdr ++ d ++ c ++ b) - length b)
                     (m ++ hdr ++ d ++ c ++ b) = m ++ hdr ++ d ++ c).
  { replace (m ++ hdr ++ d ++ c ++ b) with ((m ++ hdr ++ d ++ c) ++ b)
      by (rewrite <- !app_assoc; reflexivity).
    rewrite length_app, Nat.add_sub, firstn_app, firstn_all, Nat.sub_diag.
    cbn [firstn]. apply app_nil_r. }
  rewrite Efirst. split; [|rewrite <- !app_assoc; reflexivity].
  rewrite length_field_max_pow in Hn.
  rewrite (pack_ok _ f); cbn [Packet.framing Packet.target Packet.command
                               Packet.data]; try assumption; try lia.
  unfold covered.
  cbn [Packet.framing Packet.target Packet.command Packet.data].
  f_equal. rewrite Em, Ec, Eh. norm_app. reflexivity.
Qed.

Lemma mismatch_sound (buf : list byte) (rx calc : Z) (b : list byte) :
  body buf = Continue (Some (PrintCrcMismatch rx calc)) b ->
  rx <> calc /\ 0 <= rx < 65536 /\ 0 <= calc < 65536.
Proof.
  intros E. pose proof (body_pass buf) as P. rewrite E in P.
  inversion P; subst.
  split; [assumption|]. split.
  - match goal with
    | Hc : struct.unpack_H c = Ok rx |- _ =>
        exact (proj2 (unpack_H_length _ _ Hc))
    end.
  - apply crc_hqx_range.
Qed.

Lemma loop_events_sound (fuel : nat) (buf : list byte) (r : run) :
  loop fuel buf = Some r -> Forall event_sound (out r).
Proof.
  revert buf r. induction fuel as [|fuel IH]; intros buf r; [discriminate|].
  rewrite loop_unfold. destruct (body buf) as [|o b|e b] eqn:E.
  - intros X. injection X as <-. constructor.
  - destruct (loop fuel b) as [r0|] eqn:E0; [|discriminate].
    intros X. injection X as <-. pose proof (IH _ _ E0) as H0.
    destruct o as [[p|rx calc]|]; cbn [emit out]; try assumption.
    + constructor; [|assumption].
      eexists. exact (proj1 (yield_canonical _ _ _ E)).
    + constructor; [|assumption].
      exact (mismatch_sound _ _ _ _ E).
  - intros X. injection X as <-. constructor.
Qed.

(** X5. A pass that yields a packet has removed from the buffer exactly the
    bytes that [pack] returns for that packet: decoding accepts canonical
    frames only.  So every packet that a run yields can be packed again
    (recognized framing, 8-bit target and command, payload that fits), and
    every diagnostic that it prints carries two different 16-bit values. *)
Theorem yielded_packets_are_canonical :
  (forall (buf : list byte) (p : Packet.t) (b : list byte),
      body buf = Continue (Some (Yield p)) b ->
      exists frame, Packet.pack p = Ok frame /\ buf = frame ++ b) /\
  (forall (self_buffer data : list byte) (r : run),
      parse self_buffer data = Some r -> Forall event_sound (out r)).
Proof.
  split.
  - intros buf p b E. destruct (yield_canonical _ _ _ E) as [H1 H2].
    eexists. split; eassumption.
  - intros self_buffer data r H. unfold parse in H.
    exact (loop_events_sound _ _ _ H).
Qed.

Lemma yielded_packets_are_canonical_witness :
  exists frame,
    Packet.pack scenario_packet = Ok frame /\
    [xa5; x5a; x00; x01; x02; x05; x00; x21; xe7; xff] = frame ++ [xff].
Proof.
  apply (proj1 yielded_packets_are_canonical
           [xa5; x5a; x00; x01; x02; x05; x00; x21; xe7; xff]
           scenario_packet [xff]).
  vm_compute. reflexivity.
Defined.

(** X6. A stream of packed frames one after the other, followed by any
    bytes, is decoded by one call on a new receiver into the packets, in
    order, followed by what the bytes after them give on their own. *)
Theorem back_to_back_frames (ps : list Packet.t) (frames : list (list byte))
        (tail : list byte) (r : run) :
  Forall2 (fun p frame => Packet.pack p = Ok frame) ps frames ->
  parse init tail = Some r ->
  parse init (concat frames ++ tail) =
  Some {| out := map Yield ps ++ out r; buffer := buffer r;
          raised := raised r |}.
Proof.
  intros HF Hr. induction HF as [|p frame ps frames Hp HF IH].
  - cbn [concat map app]. rewrite Hr. destruct r; reflexivity.
  - cbn [concat map]. rewrite <- app_assoc.
    pose proof (parse_pack _ _ Hp) as R1.
    exact (parse_app init frame (concat frames ++ tail) _ _ R1 IH).
Qed.

Lemma back_to_back_frames_witness :
  parse init
    (concat [[xa5; x5a; x00; x01; x02; x05; x00; x21; xe7];
             [xa5; x5a; x03; x0b; x00; xaa; x85]] ++ [xa5; x5a; x07]) =
  Some {| out :=
            map Yield
              [scenario_packet;
               {| Packet.command := 0x0b; Packet.framing := SHORT_FORM;
                  Packet.target := 3; Packet.data := [] |}] ++ [];
          buffer := [xa5; x5a; x07]; raised := None |}.
Proof.
  apply (back_to_back_frames
           [scenario_packet;
            {| Packet.command := 0x0b; Packet.framing := SHORT_FORM;
               Packet.target := 3; Packet.data := [] |}]
           [[xa5; x5a; x00; x01; x02; x05; x00; x21; xe7];
            [xa5; x5a; x03; x0b; x00; xaa; x85]]
           [xa5; x5a; x07]
           {| out := []; buffer := [xa5; x5a; x07]; raised := None |}).
  - repeat constructor.
  - vm_compute. reflexivity.
Defined.

(** ** [PacketReceiver.parse]: chunks, buffer, noise *)

(** X7. The chunk boundaries of a stream do not matter, whatever the stream
    holds (frames, parts of frames, corrupted frames, noise): feeding chunks
    one by one to a new receiver gives the events and leaves the buffer
    that one call on their concatenation gives, and never raises. *)
Theorem chunking_invariance (chunks : list (list byte)) :
  feed init chunks = parse init (concat chunks) /\
  exists r, feed init chunks = Some r /\ raised r = None.
Proof.
  assert (E : feed init chunks = parse init (concat chunks)).
  { apply feed_concat. apply body_short. vm_compute. reflexivity. }
  split; [exact E|]. rewrite E. apply parse_total.
Qed.

Lemma insufficient_bound (buf : list byte) :
  insufficient buf -> len buf <= 65542.
Proof.
  intros (framing & f & _ & Hf & H). cbv zeta in H.
  destruct H as [H|(t & k & n & Hh & H)].
  - destruct (formats_inv _ _ Hf) as [[_ ->]|[_ ->]];
      cbn [len_struct] in H; unfold struct.calcsize_header in H;
      cbn [struct.size] in H; lia.
  - destruct (unpack_header_length _ _ _ _ _ Hh) as (_ & _ & _ & Hn).
    rewrite length_field_max_pow in Hn.
    destruct (formats_inv _ _ Hf) as [[_ ->]|[_ ->]];
      cbn [len_struct length_field_max] in *;
      unfold struct.calcsize_header in H; cbn [struct.size] in H; lia.
Qed.

(** X8. After every call, the receiver holds at most 65542 bytes: either
    fewer than 2 bytes, or a recognized marker with an incomplete candidate
    frame behind it. *)
Theorem buffer_is_bounded (self_buffer data : list byte) (r : run) :
  parse self_buffer data = Some r ->
  len (buffer r) <= 65542 /\
  (len (buffer r) < 2 \/ insufficient (buffer r)).
Proof.
  intros H. unfold parse in H.
  pose proof (break_inv _ (loop_settled _ _ _ H)) as [Hs|Hi].
  - split; [lia | left; assumption].
  - split; [apply insufficient_bound; assumption | right; assumption].
Qed.

Lemma buffer_is_bounded_witness :
  len [xa5; x5a; x00] <= 65542 /\
  (len [xa5; x5a; x00] < 2 \/ insufficient [xa5; x5a; x00]).
Proof.
  apply (buffer_is_bounded [x17; xa5] [x5a; x00]
           {| out := []; buffer := [xa5; x5a; x00]; raised := None |}).
  vm_compute. reflexivity.
Defined.

(** X9. A call with no new bytes, after any call, yields nothing, prints
    nothing and leaves the buffer as it is. *)
Theorem parse_nothing_new (self_buffer data : list byte) (r : run) :
  parse self_buffer data = Some r ->
  parse (buffer r) [] =
  Some {| out := []; buffer := buffer r; raised := None |}.
Proof.
  intros H. unfold parse in H. apply (parse_of_loop 1).
  rewrite app_nil_r, loop_unfold, (loop_settled _ _ _ H). reflexivity.
Qed.

Lemma parse_nothing_new_witness :
  parse [xa5; x5a; x00] [] =
  Some {| out := []; buffer := [xa5; x5a; x00]; raised := None |}.
Proof.
  apply (parse_nothing_new [x17; xa5] [x5a; x00]
           {| out := []; buffer := [xa5; x5a; x00]; raised := None |}).
  vm_compute. reflexivity.
Defined.

Lemma loop_noise (s : list byte) :
  (forall i, recognized i s = false) ->
  loop (S (length s)) s =
  Some {| out := []; buffer := skipn (length s - 1) s; raised := None |}.
Proof.
  induction s as [|a s IH]; intros Hno.
  - reflexivity.
  - destruct s as [|b s].
    + reflexivity.
    + change (length (a :: b :: s)) with (S (length (b :: s))) at 1.
      rewrite loop_unfold.
      rewrite (body_unrecognized (a :: b :: s));
        [|unfold len; cbn [length]; lia | exact (Hno 0%nat)].
      rewrite option_map_emit_none.
      change (drop 1 (a :: b :: s)) with (b :: s).
      rewrite IH by (intros i; exact (Hno (S i))).
      replace (length (a :: b :: s) - 1)%nat
        with (S (length (b :: s) - 1)) by (cbn [length]; lia).
      reflexivity.
Qed.

(** X10. A stream in which no two neighbouring bytes form a recognized
    marker gives no event, and all of it but its last byte is discarded:
    noise does not pile up in the receiver. *)
Theorem noise_is_discarded (s : list byte) :
  (forall i, recognized i s = false) ->
  parse init s =
  Some {| out := []; buffer := skipn (length s - 1) s; raised := None |}.
Proof.
  intros Hno. apply (parse_of_loop (S (length s))).
  exact (loop_noise s Hno).
Qed.

Lemma noise_is_discarded_witness :
  parse init [x00; x5a; xa5; xff] =
  Some {| out := []; buffer := [xff]; raised := None |}.
Proof.
  apply (noise_is_discarded [x00; x5a; xa5; xff]).
  intros i. destruct i as [|[|[|[|i]]]]; try reflexivity.
  unfold recognized, marker_at. cbn [skipn]. destruct i; reflexivity.
Defined.

Lemma event_cost (buf : list byte) (e : event) (b : list byte) :
  body buf = Continue (Some e) b -> len b + 7 <= len buf.
Proof.
  intros E. pose proof (body_pass buf) as P. rewrite E in P.
  inversion P; subst;
    match goal with
    | Hm : struct.unpack_H ?m = Ok ?framing,
      Hf : Packet.formats ?framing = Some ?f,
      Hh : struct.unpack_header _ ?hdr = Ok (_, _, len ?d),
      Hc : struct.unpack_H ?c = Ok _ |- _ =>
        destruct (unpack_H_length _ _ Hm) as [Lm _];
        destruct (unpack_H_length _ _ Hc) as [Lc _];
        destruct (unpack_header_length _ _ _ _ _ Hh) as (Lh & _);
        pose proof (len_nonneg d);
        rewrite !len_app;
        unfold struct.calcsize_header in Lh;
        destruct (len_struct f); cbn [struct.size] in Lh; lia
    end.
Qed.

Lemma loop_accounting (fuel : nat) (buf : list byte) (r : run) :
  loop fuel buf = Some r ->
  7 * Z.of_nat (length (out r)) + len (buffer r) <= len buf.
Proof.
  revert buf r. induction fuel as [|fuel IH]; intros buf r; [discriminate|].
  rewrite loop_unfold. destruct (body buf) as [|o b|e b] eqn:E.
  - intros X. injection X as <-. cbn [out buffer length]. lia.
  - destruct (loop fuel b) as [r0|] eqn:E0; [|discriminate].
    intros X. injection X as <-. pose proof (IH _ _ E0) as H0.
    destruct o as [e|]; cbn [emit out buffer length].
    + pose proof (event_cost _ _ _ E). lia.
    + pose proof (body_decreases _ _ _ E). unfold len in *. lia.
  - exfalso. exact (body_never_raises _ _ _ E).
Qed.

(** X11. Every event of a run, packet or diagnostic, accounts for at least 7
    consumed bytes, and these together with what is left in the buffer are
    no more than the bytes the run had: a call on [n] bytes gives at most
    [n / 7] events. *)
Theorem events_cost_seven_bytes (self_buffer data : list byte) (r : run) :
  parse self_buffer data = Some r ->
  7 * Z.of_nat (length (out r)) + len (buffer r)
  <= len self_buffer + len data.
Proof.
  intros H. unfold parse in H. rewrite <- len_app.
  exact (loop_accounting _ _ _ H).
Qed.

Lemma events_cost_seven_bytes_witness :
  7 * Z.of_nat (length [Yield scenario_packet]) + len (@nil byte)
  <= len (@nil byte) + len [xa5; x5a; x00; x01; x02; x05; x00; x21; xe7].
Proof.
  apply (events_cost_seven_bytes []
           [xa5; x5a; x00; x01; x02; x05; x00; x21; xe7]
           {| out := [Yield scenario_packet]; buffer := [];
              raised := None |}).
  vm_compute. reflexivity.
Defined.

(** ** [Packet.__repr__] *)

Lemma hexdigit_inj (a b : Z) :
  0 <= a < 16 -> 0 <= b < 16 ->
  pyformat.hexdigit false a = pyformat.hexdigit false b -> a = b.
Proof.
  intros Ha Hb E.
  assert (C : all_below (fun a => all_below (fun b =>
                (a =? b) ||
                negb (Ascii.eqb (pyformat.hexdigit false a)
                                (pyformat.hexdigit false b)))
                16 0) 16 0 = true) by (vm_compute; reflexivity).
  pose proof (all_below_spec _ _ _ C a ltac:(lia)) as Ca. cbv beta in Ca.
  pose proof (all_below_spec _ _ _ Ca b ltac:(lia)) as Cb. cbv beta in Cb.
  apply orb_true_iff in Cb. destruct Cb as [Cb|Cb].
  - apply Z.eqb_eq. assumption.
  - rewrite E, Ascii.eqb_refl in Cb. discriminate.
Qed.

Lemma format_hex_u8 (n : Z) :
  u8 n ->
  pyformat.format_hex 2 false n =
  [pyformat.hexdigit false (n / 16); pyformat.hexdigit false (n mod 16)].
Proof.
  intros Hn.
  assert (C : all_below (fun n =>
                if list_eq_dec Ascii.ascii_dec
                     (pyformat.format_hex 2 false n)
                     [pyformat.hexdigit false (n / 16);
                      pyformat.hexdigit false (n mod 16)]
                then true else false) 256 0 = true)
    by (vm_compute; reflexivity).
  pose proof (all_below_spec _ _ _ C n ltac:(unfold u8 in Hn; lia)) as Cn.
  cbv beta in Cn.
  destruct (list_eq_dec Ascii.ascii_dec (pyformat.format_hex 2 false n) _);
    [assumption | discriminate].
Qed.

Lemma hex_pair_inj (a b : Z) :
  u8 a -> u8 b ->
  [pyformat.hexdigit false (a / 16); pyformat.hexdigit false (a mod 16)] =
  [pyformat.hexdigit false (b / 16); pyformat.hexdigit false (b mod 16)] ->
  a = b.
Proof.
  unfold u8. intros Ha Hb E. injection E as E1 E2.
  pose proof (Z.div_mod a 16 ltac:(lia)).
  pose proof (Z.div_mod b 16 ltac:(lia)).
  pose proof (Z.mod_pos_bound a 16 ltac:(lia)).
  pose proof (Z.mod_pos_bound b 16 ltac:(lia)).
  assert (0 <= a / 16 < 16)
    by (split; [apply Z.div_pos; lia | apply Z.div_lt_upper_bound; lia]).
  assert (0 <= b / 16 < 16)
    by (split; [apply Z.div_pos; lia | apply Z.div_lt_upper_bound; lia]).
  apply hexdigit_inj in E1; try assumption.
  apply hexdigit_inj in E2; try assumption.
  lia.
Qed.

Lemma b2a_hex_length (d : list byte) :
  length (pyformat.b2a_hex d) = (2 * length d)%nat.
Proof.
  induction d as [|b d IH]; [reflexivity|].
  cbn [pyformat.b2a_hex flat_map app length] in *.
  fold (pyformat.b2a_hex d). rewrite IH. lia.
Qed.

Lemma b2a_hex_inj (d e : list byte) :
  pyformat.b2a_hex d = pyformat.b2a_hex e -> d = e.
Proof.
  revert e. induction d as [|a d IH]; intros [|b e] E;
    try reflexivity; try discriminate E.
  cbn [pyformat.b2a_hex flat_map app] in E. injection E as E1 E2 E3.
  f_equal.
  - apply b2z_inj. apply hex_pair_inj.
    + pose proof (b2z_range a). unfold u8. lia.
    + pose proof (b2z_range b). unfold u8. lia.
    + rewrite E1, E2. reflexivity.
  - apply IH. exact E3.
Qed.

Lemma app_same_length {A} (a b x y : list A) :
  length a = length b -> a ++ x = b ++ y -> a = b /\ x = y.
Proof.
  revert b. induction a as [|h a IH]; intros [|k b] L E;
    try discriminate L.
  - split; [reflexivity | exact E].
  - cbn [app] in E. injection E as -> E. cbn [length] in L.
    destruct (IH b ltac:(lia) E) as [-> ->]. split; reflexivity.
Qed.

Lemma format_hex_framing (framing : Z) (f : format) :
  Packet.formats framing = Some f ->
  framing = LONG_FORM /\
  pyformat.format_hex 4 true framing = ["A"; "A"; "5"; "5"]%char \/
  framing = SHORT_FORM /\
  pyformat.format_hex 4 true framing = ["5"; "A"; "A"; "5"]%char.
Proof.
  intros Hf. destruct (formats_inv _ _ Hf) as [[-> _]|[-> _]];
    [left | right]; split; reflexivity.
Qed.

(** X12. For a packet with a registered framing and 8-bit target and
    command, the text of [__repr__] has 25 characters and two more for each
    payload byte, and it tells packets apart: two such packets with the
    same text are the same packet. *)
Theorem repr_distinguishes_packets (p q : Packet.t) (f g : format) :
  Packet.formats (Packet.framing p) = Some f ->
  Packet.formats (Packet.framing q) = Some g ->
  u8 (Packet.target p) -> u8 (Packet.command p) ->
  u8 (Packet.target q) -> u8 (Packet.command q) ->
  length (Packet__repr__ p) = (25 + 2 * length (Packet.data p))%nat /\
  (Packet__repr__ p = Packet__repr__ q -> p = q).
Proof.
  intros Hf Hg Htp Hkp Htq Hkq. unfold Packet__repr__.
  rewrite !(format_hex_u8 _ Htp), !(format_hex_u8 _ Hkp),
    !(format_hex_u8 _ Htq), !(format_hex_u8 _ Hkq).
  split.
  - destruct (format_hex_framing _ _ Hf) as [[_ ->]|[_ ->]];
      rewrite !length_app, b2a_hex_length; cbn [length]; lia.
  - intros E. apply app_inv_head in E.
    apply app_same_length in E.
    2:{ destruct (format_hex_framing _ _ Hf) as [[_ ->]|[_ ->]];
        destruct (format_hex_framing _ _ Hg) as [[_ ->]|[_ ->]];
        reflexivity. }
    destruct E as [EF E]. apply app_inv_head in E.
    apply app_same_length in E; [|reflexivity].
    destruct E as [ET E]. apply app_inv_head in E.
    apply app_same_length in E; [|reflexivity].
    destruct E as [EK E]. apply app_inv_head in E.
    apply app_inv_tail in E.
    apply hex_pair_inj in ET; try assumption.
    apply hex_pair_inj in EK; try assumption.
    apply b2a_hex_inj in E.
    assert (EFr : Packet.framing p = Packet.framing q).
    { destruct (format_hex_framing _ _ Hf) as [[Ep Xp]|[Ep Xp]];
        destruct (format_hex_framing _ _ Hg) as [[Eq Xq]|[Eq Xq]];
        rewrite Xp, Xq in EF; try discriminate EF; congruence. }
    destruct p, q. cbn [Packet.framing Packet.target Packet.command
                        Packet.data] in *.
    congruence.
Qed.

Lemma repr_distinguishes_packets_witness :
  length (Packet__repr__ scenario_packet)
  = (25 + 2 * length (Packet.data scenario_packet))%nat /\
  (Packet__repr__ scenario_packet =
   Packet__repr__ {| Packet.command := 0x0b; Packet.framing := LONG_FORM;
                     Packet.target := 3; Packet.data := [] |} ->
   scenario_packet =
   {| Packet.command := 0x0b; Packet.framing := LONG_FORM;
      Packet.target := 3; Packet.data := [] |}).
Proof.
  apply (repr_distinguishes_packets scenario_packet
           {| Packet.command := 0x0b; Packet.framing := LONG_FORM;
              Packet.target := 3; Packet.data := [] |}
           short_format long_format).
  - reflexivity.
  - reflexivity.
  - unfold u8, scenario_packet. cbn [Packet.target]. lia.
  - unfold u8, scenario_packet. cbn [Packet.command]. lia.
  - unfold u8. cbn [Packet.target]. lia.
  - unfold u8. cbn [Packet.command]. lia.
Defined.
